(** * Notes application: the note store and the sync protocols of App.js

    A shallow embedding of [src/notes_frontend/src/App.js]: the in-memory
    note store of [useLocalNotes] ([create], [update], [remove],
    [replaceAll]), the draft validation ([validate]) and the handlers that
    pair an optimistic store mutation with a remote call ([bootstrap],
    [newNote], [onDelete], [onSave]).

    Conventions of the embedding.
    - A JavaScript string is the list of its UTF-16 code units.
    - The [notes] array is a [list Note]: order and duplicates are kept.
    - [setNotes (prev => f prev)] is the state transformer [f] applied to
      the store current when the updater runs; [setNotes items] overwrites.
    - A handler closes over the [notes] of the render it belongs to; the
      callbacks [then]/[catch] of a remote call run later, on whatever the
      store is at that moment, but still see the captured [notes].
    - Clock and random generator are inputs ([Env]). *)

From Stdlib Require Import List NArith ZArith Bool Lia String Ascii.
From Stdlib Require Import Sorted Permutation DecimalString.
Import ListNotations.

(** ** JavaScript strings and primitive values *)

Module JS.

Definition jsstring := list N.

(** A string literal of the source. *)
Fixpoint str (s : string) : jsstring :=
  match s with
  | EmptyString => []
  | String a s' => N_of_ascii a :: str s'
  end.

(** [a === b] on strings. *)
Fixpoint eqb (a b : jsstring) : bool :=
  match a, b with
  | [], [] => true
  | x :: a', y :: b' => N.eqb x y && eqb a' b'
  | _, _ => false
  end.

(** [s.length] *)
Definition length (s : jsstring) : N := N.of_nat (List.length s).

(** WhiteSpace and LineTerminator code units, the ones [trim] strips. *)
Definition isWhiteSpace (c : N) : bool :=
  ((9 <=? c) && (c <=? 13)                (* TAB LF VT FF CR *)
   || (c =? 32) || (c =? 160)              (* SP, NBSP *)
   || (c =? 5760)                          (* U+1680 *)
   || ((8192 <=? c) && (c <=? 8202))       (* U+2000 .. U+200A *)
   || (c =? 8232) || (c =? 8233)           (* LS, PS *)
   || (c =? 8239) || (c =? 8287)           (* U+202F, U+205F *)
   || (c =? 12288) || (c =? 65279))%N.     (* U+3000, BOM *)

Fixpoint trimStart (s : jsstring) : jsstring :=
  match s with
  | [] => []
  | c :: s' => if isWhiteSpace c then trimStart s' else s
  end.

Definition trimEnd (s : jsstring) : jsstring := rev (trimStart (rev s)).

(** [s.trim()] *)
Definition trim (s : jsstring) : jsstring := trimEnd (trimStart s).

(** [s.slice(2)] *)
Definition slice2 (s : jsstring) : jsstring := skipn 2 s.

(** Primitive values, as they come out of a JSON body.  A number is a safe
    integer (at most 2^53 in magnitude), which [String] prints in exact
    decimal; larger numbers, fractions, arrays and objects are outside the
    model. *)
Inductive value :=
| VUndefined
| VNull
| VBool (b : bool)
| VNumber (z : Z)
| VString (s : jsstring).

(** ToBoolean *)
Definition truthy (v : value) : bool :=
  match v with
  | VUndefined | VNull => false
  | VBool b => b
  | VNumber z => negb (z =? 0)%Z
  | VString s => match s with [] => false | _ => true end
  end.

(** [a ?? b] *)
Definition coalesce (a b : value) : value :=
  match a with
  | VUndefined | VNull => b
  | _ => a
  end.

(** [a || b] *)
Definition or_else (a b : value) : value := if truthy a then a else b.

(** [String(v)] *)
Definition String_ (v : value) : jsstring :=
  match v with
  | VUndefined => str "undefined"
  | VNull => str "null"
  | VBool true => str "true"
  | VBool false => str "false"
  | VNumber z => str (NilZero.string_of_int (Z.to_int z))
  | VString s => s
  end.

(** [a !== b] where [b] is known to be a string. *)
Definition strict_neq_string (a : value) (b : jsstring) : bool :=
  match a with
  | VString s => negb (eqb s b)
  | _ => true
  end.

(** One base-36 digit, as [Number.prototype.toString(36)] prints it. *)
Definition digit36 (d : N) : N :=
  (if d <? 10 then 48 + d else 87 + d)%N.

Fixpoint digits36 (fuel : nat) (n : N) (acc : jsstring) : jsstring :=
  match fuel with
  | O => acc
  | S fuel' =>
      let acc' := digit36 (n mod 36) :: acc in
      if (n / 36 =? 0)%N then acc' else digits36 fuel' (n / 36)%N acc'
  end.

(** [n.toString(36)] for a non-negative integer. *)
Definition toString36 (n : N) : jsstring :=
  digits36 (S (N.to_nat (N.log2 n))) n [].

End JS.

Abbreviation jsstring := JS.jsstring.
Abbreviation str := JS.str.

(** ** Data model *)

(** A note of the store.  [id], [title] and [content] are always strings;
    [updatedAt] is whatever value was put there: the store itself writes ISO
    strings, [bootstrap] keeps the server's value when it is truthy. *)
Record Note := mkNote {
  id : jsstring;
  title : jsstring;
  content : jsstring;
  updatedAt : JS.value
}.

(** The argument of [create]: [{ title, content }], either may be missing. *)
Record Partial := mkPartial {
  partial_title : option jsstring;
  partial_content : option jsstring
}.

(** The [data] argument of [update]: an object with some of a note's keys. *)
Record Patch := mkPatch {
  patch_id : option jsstring;
  patch_title : option jsstring;
  patch_content : option jsstring;
  patch_updatedAt : option JS.value
}.

(** A note object passed as [data]: every key is present. *)
Definition patch_of_note (n : Note) : Patch :=
  mkPatch (Some (id n)) (Some (title n)) (Some (content n))
          (Some (updatedAt n)).

(** What the environment supplies to one evaluation of [uid()] and
    [new Date().toISOString()]. *)
Record Env := mkEnv {
  random36 : jsstring;   (* Math.random().toString(36) *)
  nowMs : N;             (* Date.now() *)
  nowISO : jsstring      (* new Date().toISOString() *)
}.

(** [uid()] *)
Definition uid (e : Env) : jsstring :=
  JS.slice2 (random36 e) ++ JS.toString36 (nowMs e).

(** ** The note store ([useLocalNotes]) *)

(** [{ ...n, ...data }] *)
Definition spread (n : Note) (data : Patch) : Note :=
  mkNote (match patch_id data with Some v => v | None => id n end)
         (match patch_title data with Some v => v | None => title n end)
         (match patch_content data with Some v => v | None => content n end)
         (match patch_updatedAt data with Some v => v | None => updatedAt n end).

(** [{ ...n, updatedAt: v }] *)
Definition set_updatedAt (n : Note) (v : JS.value) : Note :=
  mkNote (id n) (title n) (content n) v.

(** [x?.trim() || dflt] *)
Definition trim_or (x : option jsstring) (dflt : jsstring) : jsstring :=
  match x with
  | None => dflt
  | Some s => match JS.trim s with [] => dflt | t => t end
  end.

(** The record [create] builds. *)
Definition create_item (e : Env) (data : Partial) : Note :=
  mkNote (uid e)
         (trim_or (partial_title data) (str "Untitled"))
         (trim_or (partial_content data) (str ""))
         (JS.VString (nowISO e)).

(** [create(data)]: the returned item and the store after
    [setNotes (prev => [item, ...prev])]. *)
Definition create (e : Env) (data : Partial) (prev : list Note)
  : Note * list Note :=
  let item := create_item e data in
  (item, item :: prev).

(** The object [update] writes for a matching note:
    [{ ...n, ...data, updatedAt: new Date().toISOString() }]. *)
Definition update_item (now : jsstring) (data : Patch) (n : Note) : Note :=
  set_updatedAt (spread n data) (JS.VString now).

(** The [prev.map] of [update], threading the variable [updatedItem] that
    the callback assigns at every match. *)
Fixpoint update_map (now : jsstring) (i : jsstring) (data : Patch)
         (prev : list Note) (updatedItem : option Note)
  : list Note * option Note :=
  match prev with
  | [] => ([], updatedItem)
  | n :: rest =>
      if JS.eqb (id n) i then
        let u := update_item now data n in
        let (rest', it) := update_map now i data rest (Some u) in
        (u :: rest', it)
      else
        let (rest', it) := update_map now i data rest updatedItem in
        (n :: rest', it)
  end.

(** [update(id, data)]: the store after the updater ran and the value of
    [updatedItem] ([None] is [null]). *)
Definition update (now : jsstring) (i : jsstring) (data : Patch)
           (prev : list Note) : list Note * option Note :=
  update_map now i data prev None.

(** [remove(id)] *)
Definition remove (i : jsstring) (prev : list Note) : list Note :=
  filter (fun n => negb (JS.eqb (id n) i)) prev.

(** [replaceAll(items)] *)
Definition replaceAll (items : list Note) (prev : list Note) : list Note :=
  items.

(** [notes.find((n) => n.id === id)] *)
Definition find_by_id (i : jsstring) (notes : list Note) : option Note :=
  find (fun n => JS.eqb (id n) i) notes.

(** ** Validation *)

(** The [errors] object: the keys that were assigned, with their messages. *)
Definition Errors := list (jsstring * jsstring).

(** [!s] for a string. *)
Definition is_empty (s : jsstring) : bool :=
  match s with [] => true | _ => false end.

(** [validate(note)] *)
Definition validate (note : Note) : Errors :=
  if is_empty (title note) || is_empty (JS.trim (title note)) then
    [(str "title", str "Title is required")]
  else if (120 <? JS.length (title note))%N then
    [(str "title", str "Title must be at most 120 characters")]
  else [].

(** ** Application state and remote calls *)

Record Toast := mkToast {
  message : jsstring;
  variant : jsstring
}.

(** A call made on the [api] client. *)
Inductive Request :=
| ListNotes
| CreateNote (note : Note)
| UpdateNote (i : jsstring) (note : option Note)
| DeleteNote (i : jsstring).

(** The state slices of [App], and the remote calls issued so far (latest
    first). *)
Record App := mkApp {
  notes : list Note;
  selectedId : option jsstring;
  draft : option Note;
  validation : Errors;
  isSaving : bool;
  toast : option Toast;
  requests : list Request
}.

Definition set_notes (f : list Note -> list Note) (w : App) : App :=
  mkApp (f (notes w)) (selectedId w) (draft w) (validation w) (isSaving w)
        (toast w) (requests w).

Definition setSelectedId (s : option jsstring) (w : App) : App :=
  mkApp (notes w) s (draft w) (validation w) (isSaving w) (toast w)
        (requests w).

Definition setValidation (v : Errors) (w : App) : App :=
  mkApp (notes w) (selectedId w) (draft w) v (isSaving w) (toast w)
        (requests w).

Definition setIsSaving (b : bool) (w : App) : App :=
  mkApp (notes w) (selectedId w) (draft w) (validation w) b (toast w)
        (requests w).

(** [showToast(message, variant)]; the timer that clears the toast later is
    not part of the model. *)
Definition showToast (m v : jsstring) (w : App) : App :=
  mkApp (notes w) (selectedId w) (draft w) (validation w) (isSaving w)
        (Some (mkToast m v)) (requests w).

Definition call (r : Request) (w : App) : App :=
  mkApp (notes w) (selectedId w) (draft w) (validation w) (isSaving w)
        (toast w) (r :: requests w).

(** The two toast variants. *)
Definition success : jsstring := str "success".
Definition failure : jsstring := str "error".

(** A note-like object of a response body: each key holds a primitive or is
    absent ([VUndefined]). *)
Record RawNote := mkRaw {
  raw_id : JS.value;
  raw__id : JS.value;
  raw_title : JS.value;
  raw_content : JS.value;
  raw_updatedAt : JS.value
}.

(** How a remote call on one note ends: the promise is fulfilled with a body
    ([None]: [null], as for a 204, or a body without keys) or rejected. *)
Inductive Outcome :=
| Fulfilled (saved : option RawNote)
| Rejected.

(** What the callbacks of a call in flight have captured. *)
Inductive Pending :=
| PendingCreate (created : Note)
| PendingDelete (i : jsstring) (existing : Note) (captured : list Note)
| PendingSave (prev : option Note).

(** ** Create protocol ([newNote]) *)

Definition newNote (enabled : bool) (e : Env) (w : App)
  : App * option Pending :=
  let (created, notes') :=
    create e (mkPartial (Some (str "Untitled")) (Some (str ""))) (notes w) in
  let w1 := set_notes (fun _ => notes') w in
  let w2 := setSelectedId (Some (id created)) w1 in
  if enabled then (call (CreateNote created) w2, Some (PendingCreate created))
  else (showToast (str "Note created") success w2, None).

(** The [.then] callback.  [now_arg] is the clock read while the argument
    object of [update] is built, [now_upd] the one read inside [update]. *)
Definition newNote_then (created : Note) (saved : option RawNote)
           (now_arg now_upd : jsstring) (w : App) : App :=
  let w1 :=
    match saved with
    | Some s =>
        if JS.truthy (raw_id s)
           && JS.strict_neq_string (raw_id s) (id created)
        then
          let newId := JS.String_ (raw_id s) in
          let data :=
            mkPatch (Some newId) None None
                    (Some (JS.or_else (raw_updatedAt s)
                                      (JS.VString now_arg))) in
          setSelectedId (Some newId)
            (set_notes
               (fun prev => fst (update now_upd (id created) data prev)) w)
        else w
    | None => w
    end in
  showToast (str "Note created") success w1.

(** The [.catch] callback. *)
Definition newNote_catch (created : Note) (w : App) : App :=
  showToast (str "Failed to sync create") failure
            (set_notes (remove (id created)) w).

(** ** Delete protocol ([onDelete]) *)

Definition selected_is (i : jsstring) (w : App) : bool :=
  match selectedId w with
  | Some s => JS.eqb s i
  | None => false
  end.

Definition onDelete (enabled : bool) (i : jsstring) (w : App)
  : App * option Pending :=
  match find_by_id i (notes w) with
  | None => (w, None)
  | Some existing =>
      let w1 := set_notes (remove i) w in
      let w2 := if selected_is i w then setSelectedId None w1 else w1 in
      if enabled then
        (call (DeleteNote i) w2, Some (PendingDelete i existing (notes w)))
      else (showToast (str "Note deleted") success w2, None)
  end.

Definition onDelete_then (w : App) : App :=
  showToast (str "Note deleted") success w.

(** The [.catch] callback: [notes] is the array captured by the handler. *)
Definition onDelete_catch (i : jsstring) (existing : Note)
           (captured : list Note) (now : jsstring) (w : App) : App :=
  let restored := set_updatedAt existing (JS.VString now) in
  showToast (str "Failed to sync delete") failure
            (set_notes
               (replaceAll
                  (restored
                     :: filter (fun n => negb (JS.eqb (id n) i)) captured))
               w).

(** ** Save protocol ([onSave]) *)

Definition onSave (enabled : bool) (now : jsstring) (w : App)
  : App * option Pending :=
  match draft w with
  | None => (w, None)
  | Some d =>
      let errors := validate d in
      if negb (Nat.eqb (List.length errors) 0) then
        (setValidation errors w, None)
      else
        let w1 := setIsSaving true (setValidation [] w) in
        let prev := find_by_id (id d) (notes w) in
        let data := mkPatch None (Some (title d)) (Some (content d)) None in
        (* [update] returns [updatedItem] as it stands before the updater
           has run: [setValidation] and [setIsSaving] have queued their
           updates, React queues the updater of [setNotes] behind them, and
           the variable is still [null] when [updateNote] is called. *)
        let updated : option Note := None in
        let w2 := set_notes (fun p => fst (update now (id d) data p)) w1 in
        if enabled then
          (call (UpdateNote (id d) updated) w2, Some (PendingSave prev))
        else (showToast (str "Saved") success (setIsSaving false w2), None)
  end.

(** After [await api.updateNote] returned. *)
Definition onSave_resolved (w : App) : App :=
  setIsSaving false (showToast (str "Saved") success w).

(** The [catch] block, then [finally]. *)
Definition onSave_rejected (prev : option Note) (now : jsstring) (w : App)
  : App :=
  let w1 :=
    match prev with
    | Some p =>
        set_notes (fun s => fst (update now (id p) (patch_of_note p) s)) w
    | None => w
    end in
  setIsSaving false (showToast (str "Failed to sync save") failure w1).

(** The continuation of a pending call, by outcome. *)
Definition settle (p : Pending) (o : Outcome) (now_arg now_upd : jsstring)
           (w : App) : App :=
  match p, o with
  | PendingCreate created, Fulfilled saved =>
      newNote_then created saved now_arg now_upd w
  | PendingCreate created, Rejected => newNote_catch created w
  | PendingDelete _ _ _, Fulfilled _ => onDelete_then w
  | PendingDelete i existing captured, Rejected =>
      onDelete_catch i existing captured now_upd w
  | PendingSave _, Fulfilled _ => onSave_resolved w
  | PendingSave prev, Rejected => onSave_rejected prev now_upd w
  end.

(** ** Bootstrap protocol *)

(** The body [api.listNotes()] resolves with: an array, whose elements are
    objects or [null] ([None]), or something that is not an array. *)
Inductive ListBody :=
| BodyArray (items : list (option RawNote))
| BodyOther.

Inductive ListOutcome :=
| ListFulfilled (body : ListBody)
| ListRejected.

(** The callback of [serverNotes.map]: one server record made a [Note]. *)
Definition normalize (e : Env) (n : RawNote) : Note :=
  mkNote
    (JS.String_
       (JS.coalesce (JS.coalesce (raw_id n) (raw__id n)) (JS.VString (uid e))))
    (JS.String_ (JS.coalesce (raw_title n) (JS.VString (str "Untitled"))))
    (JS.String_ (JS.coalesce (raw_content n) (JS.VString (str ""))))
    (JS.or_else (raw_updatedAt n) (JS.VString (nowISO e))).

(** [serverNotes.map(...)]: element [k] reads the environment [env k].
    Reading a key of [null] throws; [None] is that exception. *)
Fixpoint normalize_all (env : nat -> Env) (k : nat)
         (items : list (option RawNote)) : option (list Note) :=
  match items with
  | [] => Some []
  | None :: _ => None
  | Some n :: rest =>
      match normalize_all env (S k) rest with
      | Some l => Some (normalize (env k) n :: l)
      | None => None
      end
  end.

Section Bootstrap.

(** The time value of [new Date(v)], in milliseconds; [None] is [NaN]
    (an invalid date).  Date parsing belongs to the runtime. *)
Variable Date_ms : JS.value -> option Z.

(** [new Date(b.updatedAt) - new Date(a.updatedAt)], with [NaN] read as
    [+0] the way the sort does. *)
Definition compare (a b : Note) : Z :=
  match Date_ms (updatedAt b), Date_ms (updatedAt a) with
  | Some tb, Some ta => tb - ta
  | _, _ => 0
  end.

(** [Array.prototype.sort] with that comparator: a stable sort, written as
    insertion from the right.  [x] comes from before every element of [l]
    and moves past those that must precede it. *)
Fixpoint insert (x : Note) (l : list Note) : list Note :=
  match l with
  | [] => [x]
  | y :: l' => if (0 <? compare x y)%Z then y :: insert x l' else x :: l
  end.

Fixpoint sort (l : list Note) : list Note :=
  match l with
  | [] => []
  | x :: l' => insert x (sort l')
  end.

(** [bootstrap()] up to the [await]. The flag says whether a call is in
    flight. *)
Definition bootstrap (enabled : bool) (w : App) : App * bool :=
  if enabled then (call ListNotes w, true) else (w, false).

(** The rest of [bootstrap()] once [api.listNotes()] has settled; [cancel]
    is the flag the effect's cleanup sets. *)
Definition bootstrap_settle (cancel : bool) (o : ListOutcome)
           (env : nat -> Env) (w : App) : App :=
  match o with
  | ListRejected => w
  | ListFulfilled BodyOther => w
  | ListFulfilled (BodyArray items) =>
      if cancel then w
      else
        match normalize_all env 0 items with
        | None => w
        | Some normalized => set_notes (replaceAll (sort normalized)) w
        end
  end.

(** The time a note is sorted by. *)
Definition time_of (n : Note) : Z :=
  match Date_ms (updatedAt n) with
  | Some t => t
  | None => 0
  end.

(** [updatedAt] is a valid date. *)
Definition dated (n : Note) : Prop := Date_ms (updatedAt n) <> None.


End Bootstrap.

(** The array [serverNotes.map] returns when every element is an object. *)
Fixpoint normalize_from (env : nat -> Env) (k : nat) (raws : list RawNote)
  : list Note :=
  match raws with
  | [] => []
  | n :: rest => normalize (env k) n :: normalize_from env (S k) rest
  end.


(** ** Notions used in the statements *)



(** The identifiers of the notes of [l], in order. *)
Definition ids (l : list Note) : list jsstring := map id l.

(** How many notes of [l] carry the identifier [i]. *)
Definition count_id (i : jsstring) (l : list Note) : nat :=
  List.length (filter (fun n => JS.eqb (id n) i) l).

(** What [update(created.id, { id: newId, updatedAt: ... })] writes. *)
Definition rebound (newId now : jsstring) (n : Note) : Note :=
  mkNote newId (title n) (content n) (JS.VString now).

(** ** The application as a transition system

    User actions start a protocol; a remote call in flight settles at some
    later step, in any order.  [inflight] holds what the callbacks of the
    calls in flight captured. *)

Record System := mkSystem {
  app : App;
  inflight : list Pending
}.

Inductive Event :=
| ClickNew (e : Env)
| ClickDelete (i : jsstring)
| ClickSave (now : jsstring)
| Settled (k : nat) (o : Outcome) (now_arg now_upd : jsstring)
| Listed (o : ListOutcome) (cancel : bool) (env : nat -> Env).

(** A handler has run: its state, and its call joins those in flight. *)
Definition launch (r : App * option Pending) (fl : list Pending) : System :=
  mkSystem (fst r)
           (match snd r with
            | Some p => p :: fl
            | None => fl
            end).

(** [fl] without its element of index [k]. *)
Fixpoint drop_nth (k : nat) (fl : list Pending) : list Pending :=
  match k, fl with
  | _, [] => []
  | O, _ :: fl' => fl'
  | S k', p :: fl' => p :: drop_nth k' fl'
  end.

(** One step: a click runs its handler, [Settled k] runs the callback of
    the [k]-th call in flight, [Listed] the rest of [bootstrap].  The effects
    that follow a render (the draft sync among them) are not steps: a run
    keeps the draft it started with. *)
Definition step (enabled : bool) (Date_ms : JS.value -> option Z)
           (s : System) (ev : Event) : System :=
  match ev with
  | ClickNew e => launch (newNote enabled e (app s)) (inflight s)
  | ClickDelete i => launch (onDelete enabled i (app s)) (inflight s)
  | ClickSave now => launch (onSave enabled now (app s)) (inflight s)
  | Settled k o now_arg now_upd =>
      match nth_error (inflight s) k with
      | Some p =>
          mkSystem (settle p o now_arg now_upd (app s))
                   (drop_nth k (inflight s))
      | None => s
      end
  | Listed o cancel env =>
      mkSystem (bootstrap_settle Date_ms cancel o env (app s)) (inflight s)
  end.

(** What a call in flight must have captured for its rollback to keep the
    identifiers distinct. *)
Definition pending_ok (p : Pending) : Prop :=
  match p with
  | PendingDelete i existing captured =>
      id existing = i /\ NoDup (ids captured)
  | _ => True
  end.

(** Identifiers are distinct in the store, and would be after any rollback. *)
Definition distinct_ids (s : System) : Prop :=
  NoDup (ids (notes (app s))) /\ Forall pending_ok (inflight s).

(** The identifiers the environment hands in are new to the store: the
    [uid()] of a create, the identifier a server assigns in the answer to a
    create, and those of a server listing among themselves. *)
Definition supplies_new_ids (s : System) (ev : Event) : Prop :=
  match ev with
  | ClickNew e => ~ In (uid e) (ids (notes (app s)))
  | Settled k (Fulfilled (Some saved)) _ _ =>
      match nth_error (inflight s) k with
      | Some (PendingCreate _) =>
          ~ In (JS.String_ (raw_id saved)) (ids (notes (app s)))
      | _ => True
      end
  | Listed (ListFulfilled (BodyArray items)) _ env =>
      match normalize_all env 0 items with
      | Some normalized => NoDup (ids normalized)
      | None => True
      end
  | _ => True
  end.

(** ** Sample data, for the concrete runs below *)

Definition t0 : jsstring := str "2024-01-01T00:00:00.000Z".
Definition t1 : jsstring := str "2024-05-01T10:00:00.000Z".
Definition t2 : jsstring := str "2024-05-01T10:00:07.000Z".

Definition note_a : Note :=
  mkNote (str "a") (str "Groceries") (str "milk") (JS.VString t0).

Definition note_b : Note :=
  mkNote (str "b") (str "Ideas") (str "") (JS.VString t0).

(** The draft of [note_a] after the user typed a new title and content. *)
Definition draft_a : Note :=
  mkNote (str "a") (str "X") (str "milk, eggs") (JS.VString t0).

Definition env1 : Env := mkEnv (str "0.4fzyo82mvyr") 1714557600000 t1.

(** A later reading of the environment. *)
Definition env2 : Env := mkEnv (str "0.k3j9x0q1w8") 1714557607000 t2.

Definition app0 : App :=
  mkApp [note_a; note_b] (Some (str "a")) (Some draft_a) [] false None [].

(** A body of [POST /notes]: the server names the note ["srv-1"] and stamps
    it with its own time. *)
Definition server_time : jsstring := str "2024-05-01T10:00:03.250Z".

Definition saved_1 : RawNote :=
  mkRaw (JS.VString (str "srv-1")) JS.VUndefined
        (JS.VString (str "Untitled")) (JS.VString (str ""))
        (JS.VString server_time).


(** A listing of three records: numeric and string identifiers, an [_id], a
    missing title and content, epoch milliseconds as [updatedAt]. *)
Definition listing : list RawNote :=
  [ mkRaw (JS.VNumber 1) JS.VUndefined (JS.VString (str "A")) JS.VUndefined
          (JS.VNumber 100);
    mkRaw (JS.VString (str "n2")) JS.VUndefined JS.VNull
          (JS.VString (str "two")) (JS.VNumber 300);
    mkRaw JS.VUndefined (JS.VString (str "x")) (JS.VString (str "C"))
          (JS.VString (str "")) (JS.VNumber 200) ].

(** [new Date(v)] on a number of milliseconds; enough for [listing]. *)
Definition Date_of_number (v : JS.value) : option Z :=
  match v with
  | JS.VNumber z => Some z
  | _ => None
  end.

(** A draft of [note_a] with the given title. *)
Definition titled (t : jsstring) : Note :=
  mkNote (str "a") t (str "milk") (JS.VString t0).

(** [n] times the letter a. *)
Definition letters (n : nat) : jsstring := repeat 97%N n.

(** [app0] with no call in flight. *)
Definition system0 : System := mkSystem app0 [].

(** * The rest of App.js *)

(** ** The API client ([createApiClient]) *)

(** The code unit of [/]. *)
Definition slash : N := 47.

Fixpoint dropSlashes (s : jsstring) : jsstring :=
  match s with
  | [] => []
  | c :: s' => if (c =? slash)%N then dropSlashes s' else s
  end.

(** [s.replace(/\/+$/, '')]: the pattern matches the whole run of slashes
    that ends the string, if there is one. *)
Definition stripTrailingSlashes (s : jsstring) : jsstring :=
  rev (dropSlashes (rev s)).

(** [base]: [process.env.REACT_APP_API_BASE?.replace(/\/+$/, '')], where the
    variable is a string or is not set ([None]). *)
Definition api_base (env_var : option jsstring) : option jsstring :=
  match env_var with
  | Some s => Some (stripTrailingSlashes s)
  | None => None
  end.

(** [enabled]: [Boolean(base)], which is what [api.isEnabled()] returns. *)
Definition isEnabled (env_var : option jsstring) : bool :=
  match api_base env_var with
  | Some (_ :: _) => true
  | _ => false
  end.

Inductive Method := GET | POST | PUT | DELETE.

(** What [http] hands to [fetch]: the method, the address [base + path] and
    the value whose [JSON.stringify] is the body ([None]: no body;
    [Some None]: the body of [null]). *)
Record HttpRequest := mkHttpRequest {
  req_method : Method;
  req_url : jsstring;
  req_body : option (option Note)
}.

(** What a method of the client does first: it throws, or it fetches. *)
Inductive Attempt :=
| Throws (msg : jsstring)
| Fetches (r : HttpRequest).

(** [`${base}${path}`] *)
Definition url (env_var : option jsstring) (path : jsstring) : jsstring :=
  match api_base env_var with
  | Some base => base ++ path
  | None => str "undefined" ++ path
  end.

(** The four methods of the client, by the call made on it. *)
Definition api_call (env_var : option jsstring) (r : Request) : Attempt :=
  if negb (isEnabled env_var) then Throws (str "API disabled")
  else
    match r with
    | ListNotes =>
        Fetches (mkHttpRequest GET (url env_var (str "/notes")) None)
    | CreateNote note =>
        Fetches (mkHttpRequest POST (url env_var (str "/notes"))
                               (Some (Some note)))
    | UpdateNote i note =>
        Fetches (mkHttpRequest PUT (url env_var (str "/notes/" ++ i))
                               (Some note))
    | DeleteNote i =>
        Fetches (mkHttpRequest DELETE (url env_var (str "/notes/" ++ i))
                               None)
    end.

Section Http.

(** The type of a parsed JSON body. *)
Variable Body : Type.

(** What [http] reads of a response: [res.ok], [res.status], what
    [res.text()] resolves with ([None]: it rejects) and what [res.json()]
    resolves with ([None]: it rejects). *)
Record Response := mkResponse {
  res_ok : bool;
  res_status : Z;
  res_text : option jsstring;
  res_json : option Body
}.

(** [fetch] rejects (no network, or the abort after 7 seconds) or resolves
    with a response. *)
Inductive FetchResult :=
| FetchFailed
| Responded (res : Response).

Inductive HttpError :=
| ErrorMessage (m : jsstring)   (* new Error(m), thrown by http itself *)
| FetchError                    (* what fetch rejected with *)
| JsonError.                    (* what res.json() rejected with *)

(** How the promise of [http] settles: with [null] ([None]) or a body, or
    with an error. *)
Inductive HttpResult :=
| HttpResolved (body : option Body)
| HttpRejected (e : HttpError).

(** [http(path, options)] from the point where [fetch] has settled. *)
Definition http (f : FetchResult) : HttpResult :=
  match f with
  | FetchFailed => HttpRejected FetchError
  | Responded res =>
      if negb (res_ok res) then
        let text := match res_text res with Some t => t | None => [] end in
        HttpRejected
          (ErrorMessage
             (if is_empty text
              then str "HTTP " ++ JS.String_ (JS.VNumber (res_status res))
              else text))
      else if (res_status res =? 204)%Z then HttpResolved None
      else
        match res_json res with
        | Some b => HttpResolved (Some b)
        | None => HttpRejected JsonError
        end
  end.

End Http.

Arguments mkResponse {Body}.
Arguments res_ok {Body}.
Arguments res_status {Body}.
Arguments res_text {Body}.
Arguments res_json {Body}.
Arguments FetchFailed {Body}.
Arguments Responded {Body}.
Arguments HttpResolved {Body}.
Arguments HttpRejected {Body}.
Arguments http {Body}.

(** The outcome a handler sees of a call on one note. *)
Definition outcome_of (h : HttpResult RawNote) : Outcome :=
  match h with
  | HttpResolved saved => Fulfilled saved
  | HttpRejected _ => Rejected
  end.

(** ** Seeding ([useLocalNotes], first effect) *)

Definition welcome_note (e : Env) : Note :=
  mkNote (uid e) (str "Welcome to Notes")
         (str "This is your Ocean Professional themed Notes app. Create, edit, and delete notes. Try searching from the left.")
         (JS.VString (nowISO e)).

Definition pro_tip_note (e : Env) : Note :=
  mkNote (uid e) (str "Pro tip")
         (str "If a backend is configured via REACT_APP_API_BASE, the app will sync with it automatically.")
         (JS.VString (nowISO e)).

(** The updater of the seeding effect; [e1] and [e2] are what the two
    object literals read. *)
Definition seed (e1 e2 : Env) (prev : list Note) : list Note :=
  match prev with
  | [] => [welcome_note e1; pro_tip_note e2]
  | _ => prev
  end.

(** ** The effects and small handlers of [App] *)

Definition setDraft (d : option Note) (w : App) : App :=
  mkApp (notes w) (selectedId w) d (validation w) (isSaving w) (toast w)
        (requests w).

(** The effect that keeps the draft in sync with the selected note:
    [notes.find((x) => x.id === selectedId) || null], copied. *)
Definition syncDraft (w : App) : App :=
  setDraft (match selectedId w with
            | Some s => find_by_id s (notes w)
            | None => None
            end) w.

(** The effect that selects the first note on mount; [mounted] is
    [mounted.current], returned as the effect leaves it. *)
Definition selectFirst (mounted : bool) (w : App) : bool * App :=
  if mounted then (true, w)
  else
    (true,
     match notes w with
     | n :: _ => setSelectedId (Some (id n)) w
     | [] => w
     end).


(** The patches the editor sends: [{ title: v }] and [{ content: v }]. *)
Definition title_patch (v : jsstring) : Patch := mkPatch None (Some v) None None.
Definition content_patch (v : jsstring) : Patch :=
  mkPatch None None (Some v) None.

(** The updater of the theme button: [t === 'light' ? 'dark' : 'light']. *)
Definition toggleTheme (t : jsstring) : jsstring :=
  if JS.eqb t (str "light") then str "dark" else str "light".

(** ** Search ([filteredNotes]) *)

(** [q] is a prefix of [s]. *)
Fixpoint startsWith (s q : jsstring) {struct q} : bool :=
  match q, s with
  | [], _ => true
  | _ :: _, [] => false
  | c :: q', d :: s' => (c =? d)%N && startsWith s' q'
  end.

(** [s.includes(q)] *)
Fixpoint includes (s q : jsstring) : bool :=
  startsWith s q
  || match s with
     | [] => false
     | _ :: s' => includes s' q
     end.

Section Search.

(** [String.prototype.toLowerCase], which belongs to the runtime. *)
Variable toLowerCase : jsstring -> jsstring.

Definition matches (q : jsstring) (n : Note) : bool :=
  includes (toLowerCase (title n)) q || includes (toLowerCase (content n)) q.

(** [filteredNotes] *)
Definition filteredNotes (search : jsstring) (notes : list Note)
  : list Note :=
  let q := toLowerCase (JS.trim search) in
  if is_empty q then notes else filter (matches q) notes.

End Search.

(** ** Runs of the transition system *)

Fixpoint run (enabled : bool) (Date_ms : JS.value -> option Z)
         (s : System) (evs : list Event) : System :=
  match evs with
  | [] => s
  | ev :: evs' => run enabled Date_ms (step enabled Date_ms s ev) evs'
  end.

(** Every event of the run brings identifiers that are new when it comes. *)
Fixpoint supplies_new_ids_along (enabled : bool)
         (Date_ms : JS.value -> option Z) (s : System) (evs : list Event)
  : Prop :=
  match evs with
  | [] => True
  | ev :: evs' =>
      supplies_new_ids s ev
      /\ supplies_new_ids_along enabled Date_ms (step enabled Date_ms s ev)
                                evs'
  end.

(** The notes of [l] whose time is [t], in order. *)
Definition at_time (Date_ms : JS.value -> option Z) (t : Z) (l : list Note)
  : list Note :=
  filter (fun n => (time_of Date_ms n =? t)%Z) l.

(** ** More sample data *)

(** The editor still holds the draft of [note_a], which has left the
    store. *)
Definition app_gone : App :=
  mkApp [note_b] (Some (str "a")) (Some draft_a) [] false None [].

(** A session with a backend: a note is created and renamed by the server,
    another is deleted and the delete fails. *)
Definition session : list Event :=
  [ ClickNew env1;
    Settled 0 (Fulfilled (Some saved_1)) t2 t2;
    ClickDelete (str "b");
    Settled 0 Rejected t2 t2 ].

(** A session without a backend. *)
Definition local_session : list Event :=
  [ ClickNew env1; ClickSave t2; ClickDelete (str "b"); ClickNew env2 ].

(** A listing with a tie: the first and the last record have the same
    time. *)
Definition tied_listing : list RawNote :=
  [ mkRaw (JS.VString (str "p")) JS.VUndefined (JS.VString (str "P"))
          JS.VUndefined (JS.VNumber 100);
    mkRaw (JS.VString (str "q")) JS.VUndefined (JS.VString (str "Q"))
          JS.VUndefined (JS.VNumber 300);
    mkRaw (JS.VString (str "r")) JS.VUndefined (JS.VString (str "R"))
          JS.VUndefined (JS.VNumber 100) ].

(** Lower case for the letters A to Z, the part of [toLowerCase] the sample
    searches need. *)
Definition lower_AZ (s : jsstring) : jsstring :=
  map (fun c => if ((65 <=? c) && (c <=? 90))%N then (c + 32)%N else c) s.

(** [s] occurs in [t] as a run of consecutive code units. *)
Definition occurs_in (s t : jsstring) : Prop :=
  exists a b, t = a ++ s ++ b.

(** Every code unit of [s] is white space. *)
Definition blank (s : jsstring) : Prop :=
  forallb JS.isWhiteSpace s = true.

(** A response with the given status and body text, [ok] as the status
    says, and no JSON in it. *)
Definition plain_response (status : Z) (text : jsstring) : Response RawNote :=
  mkResponse ((200 <=? status)%Z && (status <=? 299)%Z) status (Some text)
             None.

Definition api_example : jsstring := str "https://api.example.com".



(** ** Identifiers from outside, where they matter *)



(** * Properties *)

(** ** JavaScript strings *)

Lemma eqb_spec (a b : jsstring) : reflect (a = b) (JS.eqb a b).
Proof.
  revert b; induction a as [|x a IH]; intros [|y b]; simpl;
    try (constructor; congruence).
  destruct (N.eqb_spec x y) as [->|Hxy]; simpl.
  - destruct (IH b) as [->|Hab]; constructor; congruence.
  - constructor; congruence.
Qed.

Lemma eqb_refl (a : jsstring) : JS.eqb a a = true.
Proof. destruct (eqb_spec a a); congruence. Qed.

Lemma eqb_eq (a b : jsstring) : JS.eqb a b = true <-> a = b.
Proof. destruct (eqb_spec a b); split; congruence. Qed.

Lemma eqb_neq (a b : jsstring) : JS.eqb a b = false <-> a <> b.
Proof. destruct (eqb_spec a b); split; congruence. Qed.

Example String_number : JS.String_ (JS.VNumber 42) = str "42".
Proof. reflexivity. Qed.

Example String_zero : JS.String_ (JS.VNumber 0) = str "0".
Proof. reflexivity. Qed.

Example String_negative : JS.String_ (JS.VNumber (-7)) = str "-7".
Proof. reflexivity. Qed.

Example toString36_35 : JS.toString36 35 = str "z".
Proof. reflexivity. Qed.

Example toString36_1296 : JS.toString36 1296 = str "100".
Proof. reflexivity. Qed.

Example trim_example : JS.trim (str "  a b  ") = str "a b".
Proof. reflexivity. Qed.

(** ** Identifiers drawn by [uid] *)









(** ** The store operations *)

Lemma update_map_fst now i data prev acc :
  fst (update_map now i data prev acc)
  = map (fun n => if JS.eqb (id n) i then update_item now data n else n) prev.
Proof.
  revert acc; induction prev as [|n rest IH]; intros acc; simpl; [reflexivity|].
  destruct (JS.eqb (id n) i).
  - specialize (IH (Some (update_item now data n))).
    destruct (update_map now i data rest (Some (update_item now data n)));
      simpl in *; now rewrite IH.
  - specialize (IH acc).
    destruct (update_map now i data rest acc); simpl in *; now rewrite IH.
Qed.

Lemma update_fst now i data prev :
  fst (update now i data prev)
  = map (fun n => if JS.eqb (id n) i then update_item now data n else n) prev.
Proof. apply update_map_fst. Qed.

Lemma update_item_note now p n :
  update_item now (patch_of_note p) n = set_updatedAt p (JS.VString now).
Proof. reflexivity. Qed.

Lemma update_item_id now data n :
  patch_id data = None -> id (update_item now data n) = id n.
Proof. intros H; unfold update_item, spread; simpl; now rewrite H. Qed.

Lemma find_by_id_id i l n : find_by_id i l = Some n -> id n = i.
Proof.
  intros H; apply find_some in H; destruct H as [_ H]; now apply eqb_eq.
Qed.

Lemma find_by_id_In i l n : find_by_id i l = Some n -> In n l.
Proof. intros H; now apply find_some in H. Qed.

Lemma find_by_id_present l :
  forall n, NoDup (ids l) -> In n l -> find_by_id (id n) l = Some n.
Proof.
  induction l as [|m l IH]; intros n Hu Hin; [contradiction|].
  inversion Hu as [|? ? Hm Hl]; subst. simpl.
  destruct Hin as [->|Hin]; [now rewrite eqb_refl|].
  destruct (eqb_spec (id m) (id n)) as [E|E]; [|now apply IH].
  exfalso; apply Hm. rewrite E. now apply in_map.
Qed.

Lemma find_by_id_map i (f : Note -> Note) l n :
  (forall m, id (f m) = id m) ->
  find_by_id i l = Some n -> find_by_id i (map f l) = Some (f n).
Proof.
  intros Hf; induction l as [|m l IH]; simpl; [discriminate|].
  rewrite Hf. destruct (JS.eqb (id m) i); [congruence | exact IH].
Qed.

Lemma remove_fresh i l :
  ~ In i (ids l) -> remove i l = l.
Proof.
  induction l as [|n l IH]; simpl; intros H; [reflexivity|].
  destruct (eqb_spec (id n) i) as [E|E]; simpl.
  - exfalso; apply H; now left.
  - f_equal; apply IH; intros Hin; apply H; now right.
Qed.

Lemma remove_not_In i l : ~ In i (ids (remove i l)).
Proof.
  unfold ids, remove; rewrite in_map_iff; intros [n [E Hn]].
  apply filter_In in Hn; destruct Hn as [_ Hn].
  rewrite <- E, eqb_refl in Hn; discriminate.
Qed.

Lemma find_by_id_remove i l : find_by_id i (remove i l) = None.
Proof.
  destruct (find_by_id i (remove i l)) as [n|] eqn:E; [|reflexivity].
  exfalso; apply (remove_not_In i l).
  unfold ids; apply in_map_iff; exists n; split.
  - exact (find_by_id_id _ _ _ E).
  - exact (find_by_id_In _ _ _ E).
Qed.

Lemma ids_remove_incl i l j : In j (ids (remove i l)) -> In j (ids l).
Proof.
  unfold ids, remove; rewrite !in_map_iff; intros [n [E Hn]].
  apply filter_In in Hn; exists n; tauto.
Qed.

Lemma remove_NoDup i l : NoDup (ids l) -> NoDup (ids (remove i l)).
Proof.
  induction l as [|n l IH]; simpl; intros H; [constructor|].
  inversion H as [|? ? Hn Hl]; subst.
  destruct (JS.eqb (id n) i); simpl; [now apply IH|].
  constructor; [|now apply IH].
  intros Hin; apply Hn; now apply ids_remove_incl in Hin.
Qed.


Lemma count_id_zero i l : count_id i l = 0 -> ~ In i (ids l).
Proof.
  unfold count_id, ids; induction l as [|n l IH]; simpl; intros H; [tauto|].
  destruct (eqb_spec (id n) i) as [E|E]; simpl in H; [discriminate|].
  intros [Hin|Hin]; [congruence | now apply IH].
Qed.


(** ** Create *)

Lemma create_NoDup e data prev :
  ~ In (uid e) (ids prev) -> NoDup (ids prev) ->
  NoDup (ids (snd (create e data prev))).
Proof. intros Hf Hu; simpl; now constructor. Qed.






(** ** Delete *)

Lemma onDelete_enabled w i existing :
  find_by_id i (notes w) = Some existing ->
  exists w1,
    onDelete true i w = (w1, Some (PendingDelete i existing (notes w)))
    /\ notes w1 = remove i (notes w).
Proof.
  intros H; unfold onDelete; rewrite H.
  eexists; split; [reflexivity|].
  now destruct (selected_is i w).
Qed.

(** C4: when the remote delete fails, the note that was deleted is back at
    the front of the store with its identifier, title and content, and with
    [updatedAt] freshly stamped; a toast of the error variant reports the
    failure. *)
Theorem delete_failure_restores_at_front (w : App) (i : jsstring)
        (existing : Note) (now_arg now : jsstring) :
  find_by_id i (notes w) = Some existing ->
  exists w1 p,
    onDelete true i w = (w1, Some p)
    /\ find_by_id i (notes w1) = None
    /\ exists restored,
        notes (settle p Rejected now_arg now w1)
        = restored :: remove i (notes w)
        /\ id restored = id existing
        /\ title restored = title existing
        /\ content restored = content existing
        /\ updatedAt restored = JS.VString now
        /\ toast (settle p Rejected now_arg now w1)
           = Some (mkToast (str "Failed to sync delete") (str "error")).
Proof.
  intros H.
  destruct (onDelete_enabled w i existing H) as (w1 & Hrun & Hnotes).
  exists w1, (PendingDelete i existing (notes w)).
  split; [exact Hrun|]. split.
  - rewrite Hnotes; apply find_by_id_remove.
  - exists (set_updatedAt existing (JS.VString now)).
    repeat split.
Qed.

Lemma delete_failure_restores_at_front_witness :
  exists w1 p,
    onDelete true (str "b") app0 = (w1, Some p)
    /\ find_by_id (str "b") (notes w1) = None
    /\ exists restored,
        notes (settle p Rejected t2 t2 w1)
        = restored :: remove (str "b") [note_a; note_b]
        /\ id restored = str "b"
        /\ title restored = str "Ideas"
        /\ content restored = str ""
        /\ updatedAt restored = JS.VString t2
        /\ toast (settle p Rejected t2 t2 w1)
           = Some (mkToast (str "Failed to sync delete") (str "error")).
Proof.
  apply (delete_failure_restores_at_front app0 (str "b") note_b t2 t2).
  reflexivity.
Defined.

(** C9: the restore after a failed remote delete overwrites the store with
    the restored note followed by the notes the handler captured when the
    delete began, less the deleted one; what the store holds at that moment
    plays no part, so a note created or changed in between is gone. *)
Theorem delete_failure_overwrites_store (w : App) (i : jsstring)
        (existing : Note) (now_arg now : jsstring) :
  find_by_id i (notes w) = Some existing ->
  exists w1 p,
    onDelete true i w = (w1, Some p)
    /\ forall later : App,
        notes (settle p Rejected now_arg now later)
        = set_updatedAt existing (JS.VString now) :: remove i (notes w)
        /\ forall n : Note,
            In n (notes later) -> ~ In n (notes w) ->
            n <> set_updatedAt existing (JS.VString now) ->
            ~ In n (notes (settle p Rejected now_arg now later)).
Proof.
  intros H.
  destruct (onDelete_enabled w i existing H) as (w1 & Hrun & _).
  exists w1, (PendingDelete i existing (notes w)).
  split; [exact Hrun|].
  intros later; split; [reflexivity|].
  intros n _ Hold Hne [Hin|Hin]; [congruence|].
  apply Hold. unfold remove in Hin. apply filter_In in Hin. tauto.
Qed.

(** A run of the above: [note_a] is deleted, a note is created while the
    call is in flight, the call fails; the created note is lost. *)
Lemma delete_failure_overwrites_store_witness :
  exists w1 p,
    onDelete true (str "a") app0 = (w1, Some p)
    /\ In (create_item env1 (mkPartial None None))
          (notes (fst (newNote false env1 w1)))
    /\ notes (settle p Rejected t2 t2 (fst (newNote false env1 w1)))
       = [set_updatedAt note_a (JS.VString t2); note_b].
Proof.
  destruct (delete_failure_overwrites_store app0 (str "a") note_a t2 t2
              eq_refl)
    as (w1 & p & Hrun & Hlater).
  exists w1, p. split; [exact Hrun|]. split.
  - vm_compute in Hrun. injection Hrun as <- _. vm_compute. now left.
  - exact (proj1 (Hlater (fst (newNote false env1 w1)))).
Defined.

(** ** Save *)

(** The rollback of [onSave], on whatever store it meets. *)
Lemma onSave_rejected_notes prev now w :
  notes (onSave_rejected (Some prev) now w)
  = map (fun n => if JS.eqb (id n) (id prev)
                  then set_updatedAt prev (JS.VString now) else n)
        (notes w).
Proof. unfold onSave_rejected; simpl. now rewrite update_fst. Qed.

Lemma onSave_valid enabled now w d :
  draft w = Some d -> validate d = [] ->
  onSave enabled now w
  = let data := mkPatch None (Some (title d)) (Some (content d)) None in
    let w2 :=
      set_notes (fun p => fst (update now (id d) data p))
                (setIsSaving true (setValidation [] w)) in
    if enabled then
      (call (UpdateNote (id d) None) w2,
       Some (PendingSave (find_by_id (id d) (notes w))))
    else (showToast (str "Saved") success (setIsSaving false w2), None).
Proof. intros Hd Hv; unfold onSave; now rewrite Hd, Hv. Qed.

(** What the rollback of [onSave] does: when the remote update fails, the
    note gets back the identifier, title and content of the record captured
    before the save, but [update], which the rollback goes through, stamps
    [updatedAt] with the clock; every other note is as it was, and a toast
    of the error variant reports the failure. *)
Theorem save_failure_restores_fields (w : App) (d prev : Note)
        (now1 now_arg now2 : jsstring) :
  draft w = Some d ->
  validate d = [] ->
  find_by_id (id d) (notes w) = Some prev ->
  exists w1 p,
    onSave true now1 w = (w1, Some p)
    /\ notes (settle p Rejected now_arg now2 w1)
       = map (fun n => if JS.eqb (id n) (id d)
                       then set_updatedAt prev (JS.VString now2) else n)
             (notes w)
    /\ find_by_id (id d) (notes (settle p Rejected now_arg now2 w1))
       = Some (mkNote (id prev) (title prev) (content prev)
                      (JS.VString now2))
    /\ toast (settle p Rejected now_arg now2 w1)
       = Some (mkToast (str "Failed to sync save") (str "error")).
Proof.
  intros Hd Hv Hprev.
  pose proof (find_by_id_id _ _ _ Hprev) as Hid.
  rewrite (onSave_valid true now1 w d Hd Hv); cbv zeta.
  rewrite Hprev.
  eexists; eexists; split; [reflexivity|].
  assert (Hnotes :
    notes (settle (PendingSave (Some prev)) Rejected now_arg now2
             (call (UpdateNote (id d) None)
                (set_notes
                   (fun p => fst (update now1 (id d)
                                    (mkPatch None (Some (title d))
                                             (Some (content d)) None) p))
                   (setIsSaving true (setValidation [] w)))))
    = map (fun n => if JS.eqb (id n) (id d)
                    then set_updatedAt prev (JS.VString now2) else n)
          (notes w)).
  { unfold settle. rewrite onSave_rejected_notes. simpl notes.
    rewrite update_fst, map_map. apply map_ext; intros n.
    rewrite Hid.
    destruct (JS.eqb (id n) (id d)) eqn:E.
    - rewrite update_item_id by reflexivity. now rewrite E.
    - now rewrite E. }
  split; [exact Hnotes|]. split; [|reflexivity].
  rewrite Hnotes.
  rewrite (find_by_id_map (id d)
             (fun n => if JS.eqb (id n) (id d)
                       then set_updatedAt prev (JS.VString now2) else n)
             (notes w) prev).
  - cbv beta. destruct (eqb_spec (id prev) (id d)); [reflexivity|tauto].
  - intros m. destruct (JS.eqb (id m) (id d)) eqn:E; [|reflexivity].
    apply eqb_eq in E. simpl. congruence.
  - exact Hprev.
Qed.

Lemma save_failure_restores_fields_witness :
  exists w1 p,
    onSave true t1 app0 = (w1, Some p)
    /\ notes (settle p Rejected t2 t2 w1)
       = [set_updatedAt note_a (JS.VString t2); note_b]
    /\ find_by_id (str "a") (notes (settle p Rejected t2 t2 w1))
       = Some (mkNote (str "a") (str "Groceries") (str "milk")
                      (JS.VString t2))
    /\ toast (settle p Rejected t2 t2 w1)
       = Some (mkToast (str "Failed to sync save") (str "error")).
Proof.
  apply (save_failure_restores_fields app0 draft_a note_a t1 t2 t2);
    reflexivity.
Defined.

(** C1 at a concrete run: [note_a], stamped [t0], is saved under a valid
    draft at [t1], the remote update fails, and the rollback runs at [t2].
    [onSave] hands the whole captured record, [updatedAt] included, to
    [update], which overwrites the stamp: the entry of the store is then
    [note_a] stamped [t2], not the record captured before the save. *)
Lemma save_failure_does_not_restore_updatedAt :
  draft app0 = Some draft_a
  /\ validate draft_a = []
  /\ find_by_id (id draft_a) (notes app0) = Some note_a
  /\ exists w1 p,
      onSave true t1 app0 = (w1, Some p)
      /\ find_by_id (id draft_a) (notes (settle p Rejected t2 t2 w1))
         = Some (set_updatedAt note_a (JS.VString t2))
      /\ find_by_id (id draft_a) (notes (settle p Rejected t2 t2 w1))
         <> Some note_a.
Proof.
  repeat split.
  eexists; eexists; split; [reflexivity|].
  split; [reflexivity|].
  vm_compute; discriminate.
Qed.

(** ** Identifier rebinding *)

Lemma newNote_then_rebinds created s now_arg now_upd w :
  JS.truthy (raw_id s) = true ->
  JS.strict_neq_string (raw_id s) (id created) = true ->
  notes (newNote_then created (Some s) now_arg now_upd w)
  = map (fun n => if JS.eqb (id n) (id created)
                  then rebound (JS.String_ (raw_id s)) now_upd n else n)
        (notes w).
Proof.
  intros Ht Hd; unfold newNote_then; rewrite Ht, Hd; simpl.
  now rewrite update_fst.
Qed.

Lemma strict_neq_string_String v s :
  JS.String_ v <> s -> JS.strict_neq_string v s = true.
Proof.
  destruct v; simpl; try reflexivity.
  intros H; apply negb_true_iff, eqb_neq; exact H.
Qed.

(** C2 at a concrete run: a note is created at [t1], the server answers
    with the identifier ["srv-1"] and its own [updatedAt]; the rebinding runs
    at [t2].  The note is renamed ["srv-1"], but its [updatedAt] is [t2], the
    local clock inside [update], and not the server's value that [newNote]
    put into the patch. *)
Lemma rebinding_stamps_local_clock :
  exists w1 p,
    newNote true env1 app0 = (w1, Some p)
    /\ raw_updatedAt saved_1 = JS.VString server_time
    /\ find_by_id (str "srv-1")
                  (notes (settle p (Fulfilled (Some saved_1)) t2 t2 w1))
       = Some (mkNote (str "srv-1") (str "Untitled") (str "")
                      (JS.VString t2))
    /\ JS.VString t2 <> JS.VString server_time.
Proof.
  eexists; eexists; split; [reflexivity|].
  split; [reflexivity|]. split; [reflexivity|].
  vm_compute; discriminate.
Qed.

(** ** Bootstrap *)

Lemma normalize_all_objects env k raws :
  normalize_all env k (map Some raws) = Some (normalize_from env k raws).
Proof.
  revert k; induction raws as [|r raws IH]; intros k; simpl; [reflexivity|].
  now rewrite IH.
Qed.



Section Sorting.

Variable Date_ms : JS.value -> option Z.

Lemma insert_perm x l : Permutation (x :: l) (insert Date_ms x l).
Proof.
  induction l as [|y l IH]; simpl; [apply Permutation_refl|].
  destruct (0 <? compare Date_ms x y)%Z; [|apply Permutation_refl].
  eapply perm_trans; [apply perm_swap|]. now apply perm_skip.
Qed.

Lemma sort_perm l : Permutation l (sort Date_ms l).
Proof.
  induction l as [|x l IH]; simpl; [constructor|].
  eapply perm_trans; [apply perm_skip, IH | apply insert_perm].
Qed.

Lemma compare_dated a b :
  dated Date_ms a -> dated Date_ms b ->
  compare Date_ms a b = (time_of Date_ms b - time_of Date_ms a)%Z.
Proof.
  unfold dated, compare, time_of.
  destruct (Date_ms (updatedAt a)), (Date_ms (updatedAt b)); congruence.
Qed.



End Sorting.





(** C10: when [api.listNotes()] succeeds with something that is not an
    array, the application state is left as it was: the store is unchanged
    and no toast is raised. *)
Theorem bootstrap_ignores_non_array_body
        (Date_ms : JS.value -> option Z) (cancel : bool) (env : nat -> Env)
        (w : App) :
  bootstrap_settle Date_ms cancel (ListFulfilled BodyOther) env w = w
  /\ notes (bootstrap_settle Date_ms cancel (ListFulfilled BodyOther) env w)
     = notes w
  /\ toast (bootstrap_settle Date_ms cancel (ListFulfilled BodyOther) env w)
     = toast w.
Proof. repeat split. Qed.

(** ** Validation *)

Lemma trim_nil_of_empty s : s = [] -> JS.trim s = [].
Proof. intros ->; reflexivity. Qed.

Lemma validate_blank d :
  title d = [] \/ JS.trim (title d) = [] ->
  validate d = [(str "title", str "Title is required")].
Proof.
  intros H; unfold validate.
  assert (Ht : JS.trim (title d) = [])
    by (destruct H as [H|H]; [now apply trim_nil_of_empty | exact H]).
  rewrite Ht; simpl. now rewrite orb_true_r.
Qed.

Lemma validate_not_blank d :
  JS.trim (title d) <> [] ->
  validate d
  = if (120 <? JS.length (title d))%N
    then [(str "title", str "Title must be at most 120 characters")]
    else [].
Proof.
  intros H; unfold validate.
  destruct (title d) as [|c s] eqn:Et; [now elim H|].
  destruct (JS.trim (c :: s)); [now elim H|]. reflexivity.
Qed.

(** C6: [validate] reads the draft's title only.  An empty or blank title
    yields the error "Title is required", and [onSave] then stops: the store
    is untouched and no remote call is made.  A title that is not blank
    passes when it has at most 120 code units, so at exactly 120, and is
    rejected with "Title must be at most 120 characters" beyond, so at 121;
    a title of 121 code units is rejected in any case.  The content plays no
    part. *)
Theorem validate_title_only :
  (forall d : Note,
      title d = [] \/ JS.trim (title d) = [] ->
      validate d = [(str "title", str "Title is required")]
      /\ forall (enabled : bool) (now : jsstring) (w : App),
          draft w = Some d ->
          snd (onSave enabled now w) = None
          /\ notes (fst (onSave enabled now w)) = notes w
          /\ requests (fst (onSave enabled now w)) = requests w
          /\ validation (fst (onSave enabled now w)) = validate d)
  /\ (forall d : Note,
         JS.trim (title d) <> [] -> (JS.length (title d) <= 120)%N ->
         validate d = [])
  /\ (forall d : Note,
         JS.trim (title d) <> [] -> JS.length (title d) = 120%N ->
         validate d = [])
  /\ (forall d : Note,
         JS.trim (title d) <> [] -> (120 < JS.length (title d))%N ->
         validate d
         = [(str "title", str "Title must be at most 120 characters")])
  /\ (forall d : Note,
         JS.length (title d) = 121%N ->
         validate d <> []
         /\ (JS.trim (title d) <> [] ->
             validate d
             = [(str "title", str "Title must be at most 120 characters")]))
  /\ (forall d d' : Note, title d = title d' -> validate d = validate d').
Proof.
  split; [|split; [|split; [|split; [|split]]]].
  - intros d H. pose proof (validate_blank d H) as Hv. split; [exact Hv|].
    intros enabled now w Hd. unfold onSave. rewrite Hd, Hv. simpl.
    repeat split.
  - intros d Hb Hl. rewrite (validate_not_blank d Hb).
    destruct (N.ltb_spec 120 (JS.length (title d))); [lia|reflexivity].
  - intros d Hb Hl. rewrite (validate_not_blank d Hb), Hl. reflexivity.
  - intros d Hb Hl. rewrite (validate_not_blank d Hb).
    destruct (N.ltb_spec 120 (JS.length (title d))); [reflexivity|lia].
  - intros d Hl. split.
    + unfold validate. rewrite Hl.
      destruct (is_empty (title d) || is_empty (JS.trim (title d)));
        simpl; discriminate.
    + intros Hb. rewrite (validate_not_blank d Hb), Hl. reflexivity.
  - intros d d' H. unfold validate. now rewrite H.
Qed.

Lemma validate_title_only_witness :
  validate (titled (str "   ")) = [(str "title", str "Title is required")]
  /\ validate (titled (letters 120)) = []
  /\ validate (titled (letters 121))
     = [(str "title", str "Title must be at most 120 characters")].
Proof.
  destruct validate_title_only as (Hblank & _ & H120 & _ & H121 & _).
  split; [|split].
  - apply (Hblank (titled (str "   "))). right. reflexivity.
  - apply (H120 (titled (letters 120))).
    + vm_compute; discriminate.
    + reflexivity.
  - apply (H121 (titled (letters 121))).
    + reflexivity.
    + vm_compute; discriminate.
Defined.

(** ** Distinct identifiers *)

Lemma ids_update_same now i data l :
  patch_id data = None -> ids (fst (update now i data l)) = ids l.
Proof.
  intros H; rewrite update_fst; unfold ids; rewrite map_map.
  apply map_ext; intros n.
  destruct (JS.eqb (id n) i); [now apply update_item_id | reflexivity].
Qed.

Lemma ids_update_note now p l :
  ids (fst (update now (id p) (patch_of_note p) l)) = ids l.
Proof.
  rewrite update_fst; unfold ids; rewrite map_map.
  apply map_ext; intros n.
  destruct (eqb_spec (id n) (id p)) as [E|E]; [now rewrite E | reflexivity].
Qed.

Lemma rebind_absent old new now l :
  ~ In old (ids l) ->
  map (fun n => if JS.eqb (id n) old then rebound new now n else n) l = l.
Proof.
  induction l as [|n l IH]; simpl; intros H; [reflexivity|].
  destruct (eqb_spec (id n) old) as [E|E].
  - exfalso; apply H; now left.
  - f_equal; apply IH; intros Hin; apply H; now right.
Qed.

Lemma rebind_In new old now l j :
  In j (ids (map (fun n => if JS.eqb (id n) old then rebound new now n
                           else n) l)) ->
  j = new \/ In j (ids l).
Proof.
  unfold ids; rewrite map_map, !in_map_iff.
  intros [n [E Hn]]. destruct (JS.eqb (id n) old).
  - left; now rewrite <- E.
  - right; exists n; now split.
Qed.

Lemma rebind_NoDup new old now l :
  NoDup (ids l) -> ~ In new (ids l) ->
  NoDup (ids (map (fun n => if JS.eqb (id n) old then rebound new now n
                            else n) l)).
Proof.
  induction l as [|n l IH]; simpl; intros Hu Hnew; [constructor|].
  inversion Hu as [|? ? Hn Hl]; subst.
  assert (Hnew' : ~ In new (ids l)) by (intros Hin; apply Hnew; now right).
  destruct (eqb_spec (id n) old) as [E|E].
  - rewrite rebind_absent by (rewrite <- E; exact Hn).
    simpl. now constructor.
  - constructor; [|now apply IH].
    intros Hin. apply rebind_In in Hin. destruct Hin as [Hin|Hin].
    + apply Hnew; now left.
    + now apply Hn.
Qed.

Lemma restore_NoDup existing i captured now :
  id existing = i -> NoDup (ids captured) ->
  NoDup (ids (set_updatedAt existing (JS.VString now) :: remove i captured)).
Proof.
  intros Hi Hu; simpl; constructor.
  - simpl; rewrite Hi; apply remove_not_In.
  - now apply remove_NoDup.
Qed.

Lemma drop_nth_Forall (P : Pending -> Prop) k fl :
  Forall P fl -> Forall P (drop_nth k fl).
Proof.
  revert k; induction fl as [|p fl IH]; intros [|k] H; simpl;
    try constructor; inversion H; subst; auto.
Qed.

Lemma nth_error_Forall (P : Pending -> Prop) k fl p :
  Forall P fl -> nth_error fl k = Some p -> P p.
Proof.
  intros H Hk; apply nth_error_In in Hk.
  rewrite Forall_forall in H; now apply H.
Qed.

Lemma newNote_then_NoDup created saved now_arg now_upd w :
  NoDup (ids (notes w)) ->
  match saved with
  | Some sv => ~ In (JS.String_ (raw_id sv)) (ids (notes w))
  | None => True
  end ->
  NoDup (ids (notes (newNote_then created saved now_arg now_upd w))).
Proof.
  intros Hu Hnew; unfold newNote_then.
  destruct saved as [sv|]; [|exact Hu].
  destruct (JS.truthy (raw_id sv)
            && JS.strict_neq_string (raw_id sv) (id created)); [|exact Hu].
  simpl. rewrite update_fst.
  now apply (rebind_NoDup (JS.String_ (raw_id sv)) (id created) now_upd).
Qed.

Lemma settle_NoDup p o now_arg now_upd w :
  NoDup (ids (notes w)) -> pending_ok p ->
  match p, o with
  | PendingCreate _, Fulfilled (Some sv) =>
      ~ In (JS.String_ (raw_id sv)) (ids (notes w))
  | _, _ => True
  end ->
  NoDup (ids (notes (settle p o now_arg now_upd w))).
Proof.
  intros Hu Hp Hnew.
  destruct p as [created | i existing captured | prev]; destruct o as [saved|].
  - apply newNote_then_NoDup; [exact Hu | now destruct saved].
  - simpl. now apply remove_NoDup.
  - exact Hu.
  - destruct Hp as [Hi Hc]. now apply restore_NoDup.
  - exact Hu.
  - destruct prev as [p|]; [|exact Hu].
    simpl. now rewrite ids_update_note.
Qed.

Lemma onDelete_distinct enabled i w fl :
  NoDup (ids (notes w)) -> Forall pending_ok fl ->
  distinct_ids (launch (onDelete enabled i w) fl).
Proof.
  intros Hu Hfl; unfold onDelete.
  destruct (find_by_id i (notes w)) as [existing|] eqn:E; [|now split].
  assert (Hr : NoDup (ids (remove i (notes w)))) by now apply remove_NoDup.
  assert (Hp : pending_ok (PendingDelete i existing (notes w))).
  { split; [exact (find_by_id_id _ _ _ E) | exact Hu]. }
  destruct enabled, (selected_is i w); split; simpl;
    try exact Hr; try exact Hfl; now constructor.
Qed.

Lemma onSave_distinct enabled now w fl :
  NoDup (ids (notes w)) -> Forall pending_ok fl ->
  distinct_ids (launch (onSave enabled now w) fl).
Proof.
  intros Hu Hfl; unfold onSave.
  destruct (draft w) as [d|]; [|now split].
  destruct (negb (Nat.eqb (List.length (validate d)) 0)); [now split|].
  destruct enabled; split; simpl;
    try (rewrite ids_update_same by reflexivity; exact Hu);
    try exact Hfl.
  constructor; [exact I | exact Hfl].
Qed.

Lemma bootstrap_settle_NoDup Date_ms cancel o env w :
  NoDup (ids (notes w)) ->
  match o with
  | ListFulfilled (BodyArray items) =>
      match normalize_all env 0 items with
      | Some normalized => NoDup (ids normalized)
      | None => True
      end
  | _ => True
  end ->
  NoDup (ids (notes (bootstrap_settle Date_ms cancel o env w))).
Proof.
  intros Hu Hnew; unfold bootstrap_settle.
  destruct o as [[items|]|]; try exact Hu.
  destruct cancel; [exact Hu|].
  destruct (normalize_all env 0 items) as [normalized|]; [|exact Hu].
  simpl. unfold replaceAll.
  eapply Permutation_NoDup; [|exact Hnew].
  apply Permutation_map, sort_perm.
Qed.

(** Every step keeps the identifiers distinct, as long as the identifiers
    that come from outside are new. *)
Lemma step_keeps_distinct_ids enabled Date_ms s ev :
  distinct_ids s -> supplies_new_ids s ev ->
  distinct_ids (step enabled Date_ms s ev).
Proof.
  intros [Hu Hfl] Hnew.
  destruct ev as [e | i | now | k o now_arg now_upd | o cancel env];
    simpl in *.
  - destruct enabled; split; simpl; try (now constructor); exact Hfl.
  - now apply onDelete_distinct.
  - now apply onSave_distinct.
  - destruct (nth_error (inflight s) k) as [p|] eqn:Ek; [|now split].
    split; simpl; [|now apply drop_nth_Forall].
    apply settle_NoDup; [exact Hu | exact (nth_error_Forall _ _ _ _ Hfl Ek) |].
    destruct p; destruct o as [[sv|]|]; try exact I.
    simpl in Hnew. rewrite ?Ek in Hnew. exact Hnew.
  - split; [|exact Hfl]. simpl.
    apply bootstrap_settle_NoDup; [exact Hu|].
    destruct o as [[items|]|]; try exact I. exact Hnew.
Qed.

Lemma create_then_rebind_notes e w sv now_arg now_upd :
  ~ In (uid e) (ids (notes w)) ->
  JS.truthy (raw_id sv) = true ->
  JS.String_ (raw_id sv) <> uid e ->
  exists created w1,
    newNote true e w = (w1, Some (PendingCreate created))
    /\ id created = uid e
    /\ notes w1 = created :: notes w
    /\ notes (newNote_then created (Some sv) now_arg now_upd w1)
       = rebound (JS.String_ (raw_id sv)) now_upd created :: notes w.
Proof.
  intros Hfresh Ht Hd.
  eexists; eexists; split; [reflexivity|].
  split; [reflexivity|]. split; [reflexivity|].
  rewrite newNote_then_rebinds;
    [| exact Ht | now apply strict_neq_string_String].
  simpl. rewrite eqb_refl. f_equal.
  now apply rebind_absent.
Qed.







(** * Further properties of App.js *)

(** ** The store, beyond the protocols *)

Lemma update_map_absent now i data l acc :
  ~ In i (ids l) -> update_map now i data l acc = (l, acc).
Proof.
  revert acc; induction l as [|n l IH]; intros acc H; simpl; [reflexivity|].
  destruct (eqb_spec (id n) i) as [E|E].
  - exfalso; apply H; now left.
  - rewrite IH; [reflexivity|]. intros Hin; apply H; now right.
Qed.

Lemma update_absent_fst now i data l :
  ~ In i (ids l) -> fst (update now i data l) = l.
Proof. intros H; unfold update; now rewrite update_map_absent. Qed.

(** X1: [update] on an identifier that no note carries returns [null] and
    leaves the store as it is. *)
Theorem update_unknown_id_changes_nothing (now i : jsstring) (data : Patch)
        (l : list Note) :
  ~ In i (ids l) -> update now i data l = (l, None).
Proof. intros H; unfold update; now apply update_map_absent. Qed.

Lemma update_unknown_id_changes_nothing_witness :
  update t2 (str "zz") (title_patch (str "New")) [note_a; note_b]
  = ([note_a; note_b], None).
Proof.
  apply update_unknown_id_changes_nothing.
  vm_compute; intuition discriminate.
Defined.

Lemma find_by_id_map_other i j (f : Note -> Note) l :
  (forall m, id (f m) = id m) ->
  (forall m, id m <> i -> f m = m) ->
  j <> i -> find_by_id j (map f l) = find_by_id j l.
Proof.
  intros Hid Hf Hj; induction l as [|m l IH]; simpl; [reflexivity|].
  rewrite Hid. destruct (eqb_spec (id m) j) as [E|E]; [|exact IH].
  rewrite Hf by congruence. reflexivity.
Qed.

Lemma update_entry (now i : jsstring) (data : Patch) (l : list Note)
      (n : Note) :
  patch_id data = None ->
  find_by_id i l = Some n ->
  ids (fst (update now i data l)) = ids l
  /\ (forall j, j <> i ->
                find_by_id j (fst (update now i data l)) = find_by_id j l)
  /\ find_by_id i (fst (update now i data l))
     = Some (mkNote i
                    (match patch_title data with
                     | Some v => v
                     | None => title n
                     end)
                    (match patch_content data with
                     | Some v => v
                     | None => content n
                     end)
                    (JS.VString now)).
Proof.
  intros Hp Hn. split; [now apply ids_update_same|].
  rewrite update_fst. split.
  - intros j Hj. apply find_by_id_map_other with (i := i); [| |exact Hj].
    + intros m. destruct (JS.eqb (id m) i); [now apply update_item_id|easy].
    + intros m Hm. now destruct (eqb_spec (id m) i).
  - rewrite (find_by_id_map i _ l n).
    + pose proof (find_by_id_id _ _ _ Hn) as Hid.
      destruct (eqb_spec (id n) i) as [_|E]; [|contradiction].
      unfold update_item, spread, set_updatedAt; simpl.
      now rewrite Hp, Hid.
    + intros m. destruct (JS.eqb (id m) i); [now apply update_item_id|easy].
    + exact Hn.
Qed.


(** X2: [update] with a patch that has no [id] key keeps the identifiers of
    the store and their order, leaves the entry of every other identifier
    alone, and gives the entry of its identifier the patch's title and
    content, where the patch has them, and the time of the call as
    [updatedAt]. *)
Theorem update_rewrites_only_its_entry (now i : jsstring) (data : Patch)
        (l : list Note) (n : Note) :
  patch_id data = None ->
  find_by_id i l = Some n ->
  ids (fst (update now i data l)) = ids l
  /\ (forall j, j <> i ->
                find_by_id j (fst (update now i data l)) = find_by_id j l)
  /\ find_by_id i (fst (update now i data l))
     = Some (mkNote i
                    (match patch_title data with
                     | Some v => v
                     | None => title n
                     end)
                    (match patch_content data with
                     | Some v => v
                     | None => content n
                     end)
                    (JS.VString now)).
Proof. apply update_entry. Qed.

Lemma update_rewrites_only_its_entry_witness :
  find_by_id (str "a")
    (fst (update t2 (str "a") (title_patch (str "New")) [note_a; note_b]))
  = Some (mkNote (str "a") (str "New") (str "milk") (JS.VString t2))
  /\ find_by_id (str "b")
       (fst (update t2 (str "a") (title_patch (str "New")) [note_a; note_b]))
     = Some note_b.
Proof.
  destruct (update_rewrites_only_its_entry t2 (str "a")
              (title_patch (str "New")) [note_a; note_b] note_a
              eq_refl eq_refl) as (_ & Hother & Hentry).
  split; [exact Hentry|].
  rewrite Hother; [reflexivity | vm_compute; discriminate].
Defined.

Lemma update_map_ignores_updatedAt now i a b c u l acc :
  update_map now i (mkPatch a b c u) l acc
  = update_map now i (mkPatch a b c None) l acc.
Proof.
  revert acc; induction l as [|n l IH]; intros acc; simpl; [reflexivity|].
  destruct (JS.eqb (id n) i).
  - change (update_item now (mkPatch a b c u) n)
      with (update_item now (mkPatch a b c None) n).
    now rewrite IH.
  - now rewrite IH.
Qed.

(** X3: an [updatedAt] key in the patch given to [update] has no effect at
    all, on the store or on the returned item: the same patch without the
    key does the same. *)
Theorem update_ignores_updatedAt_of_patch (now i : jsstring)
        (a b c : option jsstring) (u : option JS.value) (l : list Note) :
  update now i (mkPatch a b c u) l = update now i (mkPatch a b c None) l.
Proof. apply update_map_ignores_updatedAt. Qed.

Lemma find_by_id_remove_other i j l :
  j <> i -> find_by_id j (remove i l) = find_by_id j l.
Proof.
  intros Hj; induction l as [|m l IH]; simpl; [reflexivity|].
  destruct (eqb_spec (id m) i) as [E|E]; simpl.
  - destruct (eqb_spec (id m) j) as [E'|_]; [congruence | exact IH].
  - destruct (JS.eqb (id m) j); [reflexivity | exact IH].
Qed.

(** X4: after [remove(id)] no note is found under that identifier and every
    other identifier finds what it found before; removing again changes
    nothing, removing an identifier that is absent changes nothing, and the
    store shrinks by the number of notes that carried the identifier. *)
Theorem remove_drops_only_its_id (i : jsstring) (l : list Note) :
  find_by_id i (remove i l) = None
  /\ (forall j, j <> i -> find_by_id j (remove i l) = find_by_id j l)
  /\ remove i (remove i l) = remove i l
  /\ (~ In i (ids l) -> remove i l = l)
  /\ List.length (remove i l) + count_id i l = List.length l.
Proof.
  split; [apply find_by_id_remove|].
  split; [intros j Hj; now apply find_by_id_remove_other|].
  split; [apply remove_fresh, remove_not_In|].
  split; [apply remove_fresh|].
  unfold remove, count_id; induction l as [|m l IH]; simpl; [reflexivity|].
  destruct (JS.eqb (id m) i); simpl; lia.
Qed.

Lemma remove_drops_only_its_id_witness :
  remove (str "zz") [note_a; note_b] = [note_a; note_b]
  /\ find_by_id (str "b") (remove (str "a") [note_a; note_b]) = Some note_b.
Proof.
  destruct (remove_drops_only_its_id (str "zz") [note_a; note_b])
    as (_ & _ & _ & Habsent & _).
  destruct (remove_drops_only_its_id (str "a") [note_a; note_b])
    as (_ & Hother & _).
  split.
  - apply Habsent. vm_compute; intuition discriminate.
  - rewrite Hother; [reflexivity | vm_compute; discriminate].
Defined.

(** X5: the note [create] returns is the one the lookup by its identifier
    finds afterwards, also when an older note carries the same identifier,
    and every other identifier finds what it found before. *)
Theorem create_then_lookup (e : Env) (data : Partial) (prev : list Note) :
  find_by_id (id (fst (create e data prev))) (snd (create e data prev))
  = Some (fst (create e data prev))
  /\ forall j, j <> uid e ->
               find_by_id j (snd (create e data prev)) = find_by_id j prev.
Proof.
  split; simpl.
  - now rewrite eqb_refl.
  - intros j Hj. destruct (eqb_spec (uid e) j); [congruence|reflexivity].
Qed.

Lemma create_then_lookup_witness :
  find_by_id (str "b")
    (snd (create env1 (mkPartial None None) [note_a; note_b]))
  = Some note_b.
Proof.
  destruct (create_then_lookup env1 (mkPartial None None) [note_a; note_b])
    as [_ H].
  rewrite H; [reflexivity | vm_compute; discriminate].
Defined.

(** ** The create protocol, beyond the rollback *)

(** X6: [newNote] puts a note titled "Untitled", with empty content, at the
    head of the store and selects it at once, whether the backend is enabled
    or not.  Without a backend it reports success and makes no remote call;
    with one it makes exactly one call, [createNote] of that note, and shows
    no toast until the call settles. *)
Theorem newNote_applies_at_once (enabled : bool) (e : Env) (w : App) :
  let created :=
    mkNote (uid e) (str "Untitled") (str "") (JS.VString (nowISO e)) in
  let w1 := fst (newNote enabled e w) in
  notes w1 = created :: notes w
  /\ selectedId w1 = Some (uid e)
  /\ (if enabled
      then snd (newNote enabled e w) = Some (PendingCreate created)
           /\ requests w1 = CreateNote created :: requests w
           /\ toast w1 = toast w
      else snd (newNote enabled e w) = None
           /\ requests w1 = requests w
           /\ toast w1 = Some (mkToast (str "Note created") (str "success"))).
Proof. destruct enabled; repeat split. Qed.

(** X7: when the create call succeeds with no body, with a body whose [id]
    is missing or falsy, or with the identifier the note already has, the
    callback changes neither the store nor the selection: it only reports
    success. *)
Theorem create_success_without_new_id (created : Note)
        (saved : option RawNote) (now_arg now_upd : jsstring) (w : App) :
  match saved with
  | None => True
  | Some sv =>
      JS.truthy (raw_id sv) = false \/ raw_id sv = JS.VString (id created)
  end ->
  newNote_then created saved now_arg now_upd w
  = showToast (str "Note created") success w.
Proof.
  unfold newNote_then; destruct saved as [sv|]; [|reflexivity].
  intros [H|H].
  - now rewrite H.
  - rewrite H; simpl. rewrite eqb_refl; simpl. now rewrite andb_false_r.
Qed.

Lemma create_success_without_new_id_witness :
  newNote_then note_a
    (Some (mkRaw (JS.VString (str "a")) JS.VUndefined JS.VUndefined
                 JS.VUndefined (JS.VString server_time))) t2 t2 app0
  = showToast (str "Note created") success app0
  /\ newNote_then note_a
       (Some (mkRaw (JS.VNumber 0) JS.VUndefined JS.VUndefined
                    JS.VUndefined JS.VUndefined)) t2 t2 app0
     = showToast (str "Note created") success app0.
Proof.
  split; apply create_success_without_new_id; [right|left]; reflexivity.
Defined.

(** X8: when the created note is no longer in the store as the create call
    succeeds with a new identifier (it was deleted, or the store was
    replaced, in between), the rebinding leaves the store as it is and still
    selects the server's identifier, which no note of an unchanged store
    carries unless one did before. *)
Theorem rebinding_of_a_missing_note (created : Note) (sv : RawNote)
        (now_arg now_upd : jsstring) (w : App) :
  ~ In (id created) (ids (notes w)) ->
  JS.truthy (raw_id sv) = true ->
  JS.String_ (raw_id sv) <> id created ->
  notes (newNote_then created (Some sv) now_arg now_upd w) = notes w
  /\ selectedId (newNote_then created (Some sv) now_arg now_upd w)
     = Some (JS.String_ (raw_id sv))
  /\ (~ In (JS.String_ (raw_id sv)) (ids (notes w)) ->
      find_by_id (JS.String_ (raw_id sv))
        (notes (newNote_then created (Some sv) now_arg now_upd w)) = None).
Proof.
  intros Habs Ht Hd.
  assert (Hnotes :
    notes (newNote_then created (Some sv) now_arg now_upd w) = notes w).
  { rewrite newNote_then_rebinds;
      [| exact Ht | now apply strict_neq_string_String].
    now apply rebind_absent. }
  split; [exact Hnotes|]. split.
  - unfold newNote_then. rewrite Ht, strict_neq_string_String by exact Hd.
    reflexivity.
  - intros Hnew. rewrite Hnotes.
    destruct (find_by_id (JS.String_ (raw_id sv)) (notes w)) as [n|] eqn:E;
      [|reflexivity].
    exfalso; apply Hnew. unfold ids; apply in_map_iff; exists n; split.
    + exact (find_by_id_id _ _ _ E).
    + exact (find_by_id_In _ _ _ E).
Qed.

Lemma rebinding_of_a_missing_note_witness :
  notes (newNote_then (create_item env1 (mkPartial None None))
           (Some saved_1) t2 t2 app0)
  = [note_a; note_b]
  /\ selectedId (newNote_then (create_item env1 (mkPartial None None))
                   (Some saved_1) t2 t2 app0)
     = Some (str "srv-1").
Proof.
  destruct (rebinding_of_a_missing_note
              (create_item env1 (mkPartial None None)) saved_1 t2 t2 app0)
    as (Hn & Hs & _).
  - vm_compute; intuition discriminate.
  - reflexivity.
  - vm_compute; discriminate.
  - split; [exact Hn | exact Hs].
Defined.

(** ** The delete protocol, beyond the restore *)

(** X9: [onDelete] of an identifier that no note carries does nothing: the
    state is unchanged, no remote call is made and no toast is shown. *)
Theorem onDelete_unknown_id_does_nothing (enabled : bool) (i : jsstring)
        (w : App) :
  ~ In i (ids (notes w)) -> onDelete enabled i w = (w, None).
Proof.
  intros H; unfold onDelete.
  destruct (find_by_id i (notes w)) as [n|] eqn:E; [|reflexivity].
  exfalso; apply H. unfold ids; apply in_map_iff; exists n; split.
  - exact (find_by_id_id _ _ _ E).
  - exact (find_by_id_In _ _ _ E).
Qed.

Lemma onDelete_unknown_id_does_nothing_witness :
  onDelete true (str "zz") app0 = (app0, None).
Proof.
  apply onDelete_unknown_id_does_nothing.
  vm_compute; intuition discriminate.
Defined.




(** ** The save protocol, beyond the rollback *)

(** X11: a valid save writes the draft's title and content into the note's
    entry exactly as typed (nothing is trimmed), stamps it with the time of
    the save and leaves every other entry alone.  Without a backend the
    saving flag is down again at once and "Saved" is reported; with one the
    flag is up while the one call, [updateNote] of the identifier, is in
    flight, and when that call succeeds the store stays as saved, the flag
    goes down and "Saved" is reported. *)
Theorem save_writes_draft_as_typed (enabled : bool) (w : App)
        (d prev : Note) (now : jsstring) :
  draft w = Some d ->
  validate d = [] ->
  find_by_id (id d) (notes w) = Some prev ->
  let w1 := fst (onSave enabled now w) in
  find_by_id (id d) (notes w1)
  = Some (mkNote (id d) (title d) (content d) (JS.VString now))
  /\ (forall j, j <> id d -> find_by_id j (notes w1) = find_by_id j (notes w))
  /\ ids (notes w1) = ids (notes w)
  /\ validation w1 = []
  /\ (if enabled
      then snd (onSave enabled now w) = Some (PendingSave (Some prev))
           /\ isSaving w1 = true
           /\ (exists body,
                  requests w1 = UpdateNote (id d) body :: requests w)
           /\ forall (saved : option RawNote) (now_arg now_upd : jsstring),
               let w2 :=
                 settle (PendingSave (Some prev)) (Fulfilled saved)
                        now_arg now_upd w1 in
               notes w2 = notes w1
               /\ isSaving w2 = false
               /\ toast w2 = Some (mkToast (str "Saved") (str "success"))
      else snd (onSave enabled now w) = None
           /\ isSaving w1 = false
           /\ requests w1 = requests w
           /\ toast w1 = Some (mkToast (str "Saved") (str "success"))).
Proof.
  intros Hd Hv Hprev.
  rewrite (onSave_valid enabled now w d Hd Hv); cbv zeta.
  destruct (update_entry now (id d)
              (mkPatch None (Some (title d)) (Some (content d)) None)
              (notes w) prev eq_refl Hprev) as (Hids & Hother & Hentry).
  rewrite Hprev.
  destruct enabled; simpl; (split; [exact Hentry|]);
    (split; [exact Hother|]); (split; [exact Hids|]);
    (split; [reflexivity|]); repeat split.
  eexists; reflexivity.
Qed.

Lemma save_writes_draft_as_typed_witness :
  find_by_id (str "a") (notes (fst (onSave false t1 app0)))
  = Some (mkNote (str "a") (str "X") (str "milk, eggs") (JS.VString t1))
  /\ find_by_id (str "b") (notes (fst (onSave false t1 app0))) = Some note_b.
Proof.
  destruct (save_writes_draft_as_typed false app0 draft_a note_a t1
              eq_refl eq_refl eq_refl) as (Hentry & Hother & _).
  split; [exact Hentry|].
  rewrite Hother; [reflexivity | vm_compute; discriminate].
Defined.

(** X12: a valid save of a draft whose note is no longer in the store
    changes no note, and neither does the rollback if the call then fails:
    there is no captured record to go back to. *)
Theorem save_of_a_missing_note (enabled : bool) (w : App) (d : Note)
        (now : jsstring) :
  draft w = Some d ->
  validate d = [] ->
  ~ In (id d) (ids (notes w)) ->
  notes (fst (onSave enabled now w)) = notes w
  /\ (enabled = true ->
      snd (onSave enabled now w) = Some (PendingSave None)
      /\ forall (o : Outcome) (now_arg now_upd : jsstring) (later : App),
          notes (settle (PendingSave None) o now_arg now_upd later)
          = notes later).
Proof.
  intros Hd Hv Habs.
  rewrite (onSave_valid enabled now w d Hd Hv); cbv zeta.
  assert (Hfind : find_by_id (id d) (notes w) = None).
  { destruct (find_by_id (id d) (notes w)) as [n|] eqn:E; [|reflexivity].
    exfalso; apply Habs. unfold ids; apply in_map_iff; exists n; split.
    - exact (find_by_id_id _ _ _ E).
    - exact (find_by_id_In _ _ _ E). }
  rewrite Hfind. split.
  - destruct enabled; simpl;
      now rewrite update_absent_fst.
  - intros ->. split; [reflexivity|].
    intros [saved|] now_arg now_upd later; reflexivity.
Qed.

Lemma save_of_a_missing_note_witness :
  notes (fst (onSave true t1 app_gone)) = [note_b]
  /\ snd (onSave true t1 app_gone) = Some (PendingSave None).
Proof.
  destruct (save_of_a_missing_note true app_gone draft_a t1 eq_refl eq_refl)
    as [Hn Hp].
  - vm_compute; intuition discriminate.
  - split; [exact Hn | exact (proj1 (Hp eq_refl))].
Defined.

(** ** What every callback does and does not *)

(** X13: the callback of a settled call never makes a remote call (nothing
    is retried) and never touches the draft or the validation errors; it
    always shows a toast, of the error variant exactly when the call was
    rejected; the saving flag is lowered by the callback of a save, whatever
    the outcome, and left alone by the others; and the callbacks of a delete
    and of a save leave the selection alone, so a note restored after a
    failed delete is not selected again. *)
Theorem callbacks_report_and_never_call (p : Pending) (o : Outcome)
        (now_arg now_upd : jsstring) (w : App) :
  requests (settle p o now_arg now_upd w) = requests w
  /\ draft (settle p o now_arg now_upd w) = draft w
  /\ validation (settle p o now_arg now_upd w) = validation w
  /\ (exists m,
         toast (settle p o now_arg now_upd w)
         = Some (mkToast m (match o with
                            | Rejected => str "error"
                            | Fulfilled _ => str "success"
                            end)))
  /\ isSaving (settle p o now_arg now_upd w)
     = match p with
       | PendingSave _ => false
       | _ => isSaving w
       end
  /\ match p with
     | PendingCreate _ => True
     | _ => selectedId (settle p o now_arg now_upd w) = selectedId w
     end.
Proof.
  destruct p as [created | i existing captured | prev];
    destruct o as [saved|]; simpl;
    try (repeat split; eexists; reflexivity).
  - unfold newNote_then. destruct saved as [sv|];
      [destruct (JS.truthy (raw_id sv)
                 && JS.strict_neq_string (raw_id sv) (id created))|];
      repeat split; eexists; reflexivity.
  - unfold onSave_rejected. destruct prev as [pr|];
      repeat split; eexists; reflexivity.
Qed.

(** ** Runs *)

Lemma drop_nth_length k (fl : list Pending) :
  List.length (drop_nth k fl) <= List.length fl.
Proof.
  revert k; induction fl as [|p fl IH]; intros [|k]; simpl; try lia.
  specialize (IH k); lia.
Qed.

Lemma settle_requests p o now_arg now_upd w :
  requests (settle p o now_arg now_upd w) = requests w.
Proof.
  destruct p as [created | i existing captured | prev];
    destruct o as [saved|]; simpl; try reflexivity.
  - unfold newNote_then. destruct saved as [sv|]; [|reflexivity].
    now destruct (JS.truthy (raw_id sv)
                  && JS.strict_neq_string (raw_id sv) (id created)).
  - unfold onSave_rejected. now destruct prev.
Qed.

Lemma bootstrap_settle_requests Date_ms cancel o env w :
  requests (bootstrap_settle Date_ms cancel o env w) = requests w.
Proof.
  unfold bootstrap_settle. destruct o as [[items|]|]; try reflexivity.
  destruct cancel; [reflexivity|].
  now destruct (normalize_all env 0 items).
Qed.

Lemma step_local_only Date_ms s ev :
  requests (app (step false Date_ms s ev)) = requests (app s)
  /\ List.length (inflight (step false Date_ms s ev))
     <= List.length (inflight s).
Proof.
  destruct ev as [e | i | now | k o now_arg now_upd | o cancel env]; simpl.
  - split; [reflexivity | lia].
  - unfold onDelete. destruct (find_by_id i (notes (app s))); simpl;
      [destruct (selected_is i (app s))|]; split; simpl; try reflexivity; lia.
  - unfold onSave. destruct (draft (app s)) as [d|]; simpl;
      [destruct (negb (Nat.eqb (List.length (validate d)) 0))|];
      split; simpl; try reflexivity; lia.
  - destruct (nth_error (inflight s) k) as [p|]; simpl;
      [|split; [reflexivity | lia]].
    split; [apply settle_requests | apply drop_nth_length].
  - split; [apply bootstrap_settle_requests | lia].
Qed.

(** X14: without a backend no run of the application ever makes a remote
    call or puts one in flight: whatever the user does and whatever
    settles, the calls made stay what they were and the calls in flight
    never grow in number (from none, there is never one). *)
Theorem local_only_never_calls (Date_ms : JS.value -> option Z)
        (evs : list Event) (s : System) :
  requests (app (run false Date_ms s evs)) = requests (app s)
  /\ List.length (inflight (run false Date_ms s evs))
     <= List.length (inflight s)
  /\ (inflight s = [] -> inflight (run false Date_ms s evs) = []).
Proof.
  assert (H : requests (app (run false Date_ms s evs)) = requests (app s)
              /\ List.length (inflight (run false Date_ms s evs))
                 <= List.length (inflight s)).
  { revert s; induction evs as [|ev evs IH]; intros s; simpl;
      [split; [reflexivity | lia]|].
    destruct (IH (step false Date_ms s ev)) as [Hr Hl].
    destruct (step_local_only Date_ms s ev) as [Hr' Hl'].
    split; [congruence | lia]. }
  destruct H as [Hr Hl]. split; [exact Hr|]. split; [exact Hl|].
  intros He. rewrite He in Hl. simpl in Hl.
  destruct (inflight (run false Date_ms s evs)); [reflexivity|simpl in Hl; lia].
Qed.

Lemma local_only_never_calls_witness :
  requests (app (run false Date_of_number system0 local_session)) = []
  /\ inflight (run false Date_of_number system0 local_session) = [].
Proof.
  destruct (local_only_never_calls Date_of_number local_session system0)
    as (Hr & _ & Hi).
  split; [exact Hr | exact (Hi eq_refl)].
Defined.

(** X15: identifiers stay distinct in the store along every run of the
    application, rollbacks included, as long as each identifier that comes
    from outside (a [uid()], a server-assigned identifier, the identifiers of
    a listing) is new to the store when it comes. *)
Theorem identifiers_distinct_along_runs (enabled : bool)
        (Date_ms : JS.value -> option Z) (evs : list Event) (s : System) :
  distinct_ids s ->
  supplies_new_ids_along enabled Date_ms s evs ->
  distinct_ids (run enabled Date_ms s evs).
Proof.
  revert s; induction evs as [|ev evs IH]; intros s Hs Hevs; simpl;
    [exact Hs|].
  destruct Hevs as [Hev Hrest].
  apply IH; [|exact Hrest].
  now apply step_keeps_distinct_ids.
Qed.

Lemma identifiers_distinct_along_runs_witness :
  distinct_ids (run true Date_of_number system0 session)
  /\ ids (notes (app (run true Date_of_number system0 session)))
     = [str "b"; str "srv-1"; str "a"].
Proof.
  split; [|reflexivity].
  apply identifiers_distinct_along_runs.
  - split; [|constructor].
    repeat constructor; vm_compute; intuition discriminate.
  - repeat split; vm_compute; intuition discriminate.
Defined.

(** ** Bootstrap, beyond the replacement *)

Lemma normalize_all_null env items :
  forall k, In None items -> normalize_all env k items = None.
Proof.
  induction items as [|[r|] items IH]; intros k H; simpl.
  - contradiction.
  - destruct H as [H|H]; [discriminate|]. now rewrite IH.
  - reflexivity.
Qed.

(** X16: a listing is taken whole or not at all: when one element of the
    array is [null], or when the effect was cleaned up before the listing
    arrived, the application state is left exactly as it was. *)
Theorem bootstrap_drops_broken_or_late_listing
        (Date_ms : JS.value -> option Z) (cancel : bool)
        (items : list (option RawNote)) (env : nat -> Env) (w : App) :
  cancel = true \/ In None items ->
  bootstrap_settle Date_ms cancel (ListFulfilled (BodyArray items)) env w = w.
Proof.
  intros [->|H]; simpl; [reflexivity|].
  destruct cancel; [reflexivity|].
  now rewrite normalize_all_null.
Qed.

Lemma bootstrap_drops_broken_or_late_listing_witness :
  bootstrap_settle Date_of_number false
    (ListFulfilled (BodyArray (map Some listing ++ [None])))
    (fun _ => env1) app0
  = app0.
Proof.
  apply bootstrap_drops_broken_or_late_listing.
  right. apply in_or_app. right. now left.
Defined.

Section Stability.

Variable Date_ms : JS.value -> option Z.

Lemma insert_at_time t x l :
  dated Date_ms x -> Forall (dated Date_ms) l ->
  at_time Date_ms t (insert Date_ms x l) = at_time Date_ms t (x :: l).
Proof.
  intros Hx Hl; induction l as [|y l IH]; [reflexivity|].
  apply Forall_cons_iff in Hl; destruct Hl as [Hy Hl].
  simpl insert. rewrite (compare_dated Date_ms x y Hx Hy).
  destruct (Z.ltb_spec 0 (time_of Date_ms y - time_of Date_ms x)) as [C|C];
    [|reflexivity].
  unfold at_time in *. simpl filter in *. rewrite (IH Hl).
  destruct (Z.eqb_spec (time_of Date_ms y) t),
           (Z.eqb_spec (time_of Date_ms x) t); try reflexivity; lia.
Qed.

Lemma sort_at_time t l :
  Forall (dated Date_ms) l -> at_time Date_ms t (sort Date_ms l) = at_time Date_ms t l.
Proof.
  induction l as [|x l IH]; intros H; [reflexivity|].
  apply Forall_cons_iff in H; destruct H as [Hx Hl].
  simpl sort. rewrite insert_at_time.
  - unfold at_time in *. simpl. now rewrite (IH Hl).
  - exact Hx.
  - eapply Permutation_Forall; [apply sort_perm | exact Hl].
Qed.

End Stability.

(** X17: the sort of the bootstrap keeps records of equal time in the order
    of the listing: for each time, the notes of that time come in the store
    in the order the server sent them. *)
Theorem bootstrap_keeps_listing_order_on_ties
        (Date_ms : JS.value -> option Z) (raws : list RawNote)
        (env : nat -> Env) (w : App) (t : Z) :
  Forall (dated Date_ms) (normalize_from env 0 raws) ->
  at_time Date_ms t
    (notes (bootstrap_settle Date_ms false
              (ListFulfilled (BodyArray (map Some raws))) env w))
  = at_time Date_ms t (normalize_from env 0 raws).
Proof.
  intros H. unfold bootstrap_settle. rewrite normalize_all_objects.
  simpl. unfold replaceAll. now apply sort_at_time.
Qed.

Lemma bootstrap_keeps_listing_order_on_ties_witness :
  map id
    (at_time Date_of_number 100
       (notes (bootstrap_settle Date_of_number false
                 (ListFulfilled (BodyArray (map Some tied_listing)))
                 (fun _ => env1) app0)))
  = [str "p"; str "r"].
Proof.
  rewrite (bootstrap_keeps_listing_order_on_ties Date_of_number tied_listing
             (fun _ => env1) app0 100).
  - reflexivity.
  - repeat constructor; discriminate.
Defined.

(** ** Seeding *)

(** X18: the seeding effect fills an empty store with the two sample notes,
    "Welcome to Notes" first, and leaves a store that holds a note exactly as
    it is; so the store is never empty after it, and a second run changes
    nothing.  The two samples have distinct identifiers when the two
    [uid()] draws differ. *)
Theorem seed_fills_only_an_empty_store (e1 e2 e3 e4 : Env)
        (prev : list Note) :
  seed e1 e2 prev <> []
  /\ (prev <> [] -> seed e1 e2 prev = prev)
  /\ seed e3 e4 (seed e1 e2 prev) = seed e1 e2 prev
  /\ map title (seed e1 e2 []) = [str "Welcome to Notes"; str "Pro tip"]
  /\ (uid e1 <> uid e2 -> NoDup (ids (seed e1 e2 []))).
Proof.
  split; [destruct prev; discriminate|].
  split; [destruct prev; [intros H; now elim H | reflexivity]|].
  split; [destruct prev; reflexivity|].
  split; [reflexivity|].
  intros H. simpl. constructor; [|constructor; [tauto | constructor]].
  intros [E|[]]. now apply H.
Qed.

Lemma seed_fills_only_an_empty_store_witness :
  seed env1 env2 [note_b] = [note_b]
  /\ NoDup (ids (seed env1 env2 [])).
Proof.
  destruct (seed_fills_only_an_empty_store env1 env2 env1 env2 [note_b])
    as (_ & Hkeep & _ & _ & Hids).
  split.
  - apply Hkeep. discriminate.
  - apply Hids. vm_compute; discriminate.
Defined.

(** ** Search *)

Lemma startsWith_spec s q :
  startsWith s q = true <-> exists b, s = q ++ b.
Proof.
  revert s; induction q as [|c q IH]; intros s; simpl.
  - split; [intros _; now exists s | reflexivity].
  - destruct s as [|d s]; [split; [discriminate | intros [b H]; discriminate]|].
    rewrite andb_true_iff, N.eqb_eq, IH. split.
    + intros [-> [b ->]]. now exists b.
    + intros [b H]. injection H as -> ->. split; [reflexivity | now exists b].
Qed.

Lemma includes_spec s q : includes s q = true <-> occurs_in q s.
Proof.
  unfold occurs_in; induction s as [|d s IH]; simpl.
  - rewrite orb_false_r, startsWith_spec. split.
    + intros [b H]. now exists [], b.
    + intros [a [b H]]. destruct a; [now exists b | discriminate].
  - rewrite orb_true_iff, startsWith_spec, IH. split.
    + intros [[b H] | [a [b H]]].
      * now exists [], b.
      * exists (d :: a), b. now rewrite H.
    + intros [[|x a] [b H]].
      * left. now exists b.
      * right. injection H as _ H. now exists a, b.
Qed.

(** X19: the list shown under a search holds exactly the notes of the store
    whose lower-cased title or lower-cased content contains the trimmed,
    lower-cased search text as a run of consecutive code units, in the order
    of the store. *)
Theorem search_shows_the_matching_notes
        (toLowerCase : jsstring -> jsstring) (search : jsstring)
        (l : list Note) :
  let q := toLowerCase (JS.trim search) in
  filteredNotes toLowerCase search l = filter (matches toLowerCase q) l
  /\ forall n,
      In n (filteredNotes toLowerCase search l)
      <-> In n l
          /\ (occurs_in q (toLowerCase (title n))
              \/ occurs_in q (toLowerCase (content n))).
Proof.
  cbv zeta.
  assert (H : filteredNotes toLowerCase search l
              = filter (matches toLowerCase (toLowerCase (JS.trim search))) l).
  { unfold filteredNotes.
    destruct (toLowerCase (JS.trim search)) as [|c q] eqn:E; [|reflexivity].
    simpl. induction l as [|n l IH]; [reflexivity|].
    simpl. unfold matches at 1.
    destruct (toLowerCase (title n)); simpl; now rewrite <- IH. }
  split; [exact H|].
  intros n. rewrite H, filter_In. unfold matches.
  now rewrite orb_true_iff, !includes_spec.
Qed.

Lemma trimStart_blank s : blank s -> JS.trimStart s = [].
Proof.
  unfold blank; induction s as [|c s IH]; simpl; [reflexivity|].
  rewrite andb_true_iff. intros [Hc Hs]. now rewrite Hc, IH.
Qed.

Lemma trimStart_app s t :
  JS.trimStart (s ++ t)
  = match JS.trimStart s with
    | [] => JS.trimStart t
    | r => r ++ t
    end.
Proof.
  induction s as [|c s IH]; simpl; [now destruct (JS.trimStart t)|].
  destruct (JS.isWhiteSpace c); [exact IH | reflexivity].
Qed.

Lemma blank_rev s : blank s -> blank (rev s).
Proof.
  unfold blank. rewrite !forallb_forall. intros H x Hx.
  apply H. now apply in_rev.
Qed.

Lemma trimEnd_app_blank s t : blank t -> JS.trimEnd (s ++ t) = JS.trimEnd s.
Proof.
  intros Ht. unfold JS.trimEnd. rewrite rev_app_distr, trimStart_app.
  rewrite (trimStart_blank (rev t)) by now apply blank_rev.
  reflexivity.
Qed.

Lemma trim_padded pre s post :
  blank pre -> blank post -> JS.trim (pre ++ s ++ post) = JS.trim s.
Proof.
  intros Hpre Hpost. unfold JS.trim.
  rewrite trimStart_app, (trimStart_blank pre Hpre), trimStart_app.
  destruct (JS.trimStart s) as [|c r] eqn:E.
  - now rewrite (trimStart_blank post Hpost).
  - now apply trimEnd_app_blank.
Qed.

(** X20: white space around the search text plays no part: padding the text
    with white space on either side shows the same notes; and a search text
    that is empty or all white space shows the whole store (given that the
    lower case of the empty string is empty). *)
Theorem search_ignores_outer_white_space
        (toLowerCase : jsstring -> jsstring) (pre search post : jsstring)
        (l : list Note) :
  blank pre -> blank post ->
  filteredNotes toLowerCase (pre ++ search ++ post) l
  = filteredNotes toLowerCase search l
  /\ (toLowerCase [] = [] -> blank search ->
      filteredNotes toLowerCase (pre ++ search ++ post) l = l).
Proof.
  intros Hpre Hpost.
  assert (H : filteredNotes toLowerCase (pre ++ search ++ post) l
              = filteredNotes toLowerCase search l)
    by (unfold filteredNotes; now rewrite trim_padded).
  split; [exact H|].
  intros Hlow Hs. rewrite H. unfold filteredNotes, JS.trim.
  rewrite (trimStart_blank search Hs).
  change (JS.trimEnd []) with (@nil N). cbv zeta. now rewrite Hlow.
Qed.

Lemma search_ignores_outer_white_space_witness :
  filteredNotes lower_AZ (str "  IDEAS ") [note_a; note_b] = [note_b]
  /\ filteredNotes lower_AZ (str "   ") [note_a; note_b] = [note_a; note_b].
Proof.
  destruct (search_ignores_outer_white_space lower_AZ (str "  ")
              (str "IDEAS") (str " ") [note_a; note_b] eq_refl eq_refl)
    as [Hsame _].
  destruct (search_ignores_outer_white_space lower_AZ (str " ")
              (str " ") (str " ") [note_a; note_b] eq_refl eq_refl)
    as [_ Hall].
  split.
  - change (str "  IDEAS ") with (str "  " ++ str "IDEAS" ++ str " ").
    rewrite Hsame. reflexivity.
  - change (str "   ") with (str " " ++ str " " ++ str " ").
    apply Hall; reflexivity.
Defined.

(** ** The API client *)

Lemma dropSlashes_repeat k s :
  dropSlashes (repeat slash k ++ s) = dropSlashes s.
Proof. induction k as [|k IH]; simpl; [reflexivity | exact IH]. Qed.

Lemma rev_repeat_slash k : rev (repeat slash k) = repeat slash k.
Proof.
  induction k as [|k IH]; simpl; [reflexivity|].
  rewrite IH. clear IH. induction k as [|k IH]; simpl; [reflexivity|].
  now rewrite IH.
Qed.

Lemma strip_appended_slashes s k :
  stripTrailingSlashes (s ++ repeat slash k) = stripTrailingSlashes s.
Proof.
  unfold stripTrailingSlashes.
  now rewrite rev_app_distr, rev_repeat_slash, dropSlashes_repeat.
Qed.

Lemma dropSlashes_head s :
  match dropSlashes s with
  | [] => True
  | c :: _ => c <> slash
  end.
Proof.
  induction s as [|c s IH]; simpl; [exact I|].
  destruct (N.eqb_spec c slash) as [E|E]; [exact IH | exact E].
Qed.

Lemma dropSlashes_some s :
  dropSlashes s <> [] <-> exists c, In c s /\ c <> slash.
Proof.
  induction s as [|c s IH]; simpl.
  - split; [intros H; now elim H | intros [c [[] _]]].
  - destruct (N.eqb_spec c slash) as [E|E].
    + rewrite IH. split.
      * intros [x [Hx Hne]]. exists x. split; [now right | exact Hne].
      * intros [x [[<-|Hx] Hne]]; [contradiction | now exists x].
    + split; [intros _; exists c; split; [now left | exact E] | discriminate].
Qed.

Lemma isEnabled_spec base :
  isEnabled (Some base) = true <-> dropSlashes (rev base) <> [].
Proof.
  unfold isEnabled, api_base, stripTrailingSlashes.
  destruct (dropSlashes (rev base)) as [|c r]; simpl.
  - split; [discriminate | intros H; now elim H].
  - destruct (rev r ++ [c]) eqn:R.
    + apply app_eq_nil in R. destruct R as [_ R]. discriminate.
    + split; [discriminate | reflexivity].
Qed.

(** X21: slashes at the end of the configured base never reach a request:
    a base with any number of slashes appended enables the client just the
    same and gives the same calls; the client is enabled exactly when the
    base is set and holds a code unit other than a slash; and the address of
    a call is a prefix that does not end in a slash, followed by the path. *)
Theorem trailing_slashes_never_reach_the_url (base : jsstring) :
  (forall (k : nat) (r : Request),
      isEnabled (Some (base ++ repeat slash k)) = isEnabled (Some base)
      /\ api_call (Some (base ++ repeat slash k)) r = api_call (Some base) r)
  /\ (isEnabled (Some base) = true <-> exists c, In c base /\ c <> slash)
  /\ isEnabled None = false
  /\ (isEnabled (Some base) = true ->
      exists b c,
        c <> slash
        /\ forall path, url (Some base) path = b ++ [c] ++ path).
Proof.
  split; [|split; [|split; [reflexivity|]]].
  - intros k r.
    assert (Hb : api_base (Some (base ++ repeat slash k))
                 = api_base (Some base))
      by (simpl; now rewrite strip_appended_slashes).
    assert (He : isEnabled (Some (base ++ repeat slash k))
                 = isEnabled (Some base))
      by (unfold isEnabled; now rewrite Hb).
    split; [exact He|].
    unfold api_call, url. now rewrite He, Hb.
  - rewrite isEnabled_spec, dropSlashes_some. split.
    + intros [c [Hc Hne]]. exists c. split; [now apply in_rev | exact Hne].
    + intros [c [Hc Hne]]. exists c. split; [now apply in_rev in Hc | exact Hne].
  - intros He. apply isEnabled_spec in He.
    unfold url, api_base, stripTrailingSlashes.
    pose proof (dropSlashes_head (rev base)) as H.
    destruct (dropSlashes (rev base)) as [|c r] eqn:E; [now elim He|].
    exists (rev r), c. split; [exact H|].
    intros path. simpl. now rewrite <- app_assoc.
Qed.

Lemma trailing_slashes_never_reach_the_url_witness :
  api_call (Some (api_example ++ str "//")) (DeleteNote (str "a"))
  = Fetches (mkHttpRequest DELETE (api_example ++ str "/notes/a") None)
  /\ isEnabled (Some (str "///")) = false.
Proof.
  destruct (trailing_slashes_never_reach_the_url api_example)
    as (Hsame & _).
  destruct (Hsame 2 (DeleteNote (str "a"))) as [_ Hcall].
  split; [|reflexivity].
  change (str "//") with (repeat slash 2). rewrite Hcall. reflexivity.
Defined.

(** X22: a response that is not [ok] always makes [http] reject, with an
    error whose message is never empty: the text of the body when there is
    some, and "HTTP " followed by the status when the body is empty or
    cannot be read.  An [ok] response of status 204 resolves with [null]
    without its body being parsed. *)
Theorem http_turns_error_statuses_into_errors (Body : Type)
        (res : Response Body) :
  (res_ok res = false ->
   exists m,
     http (Responded res) = HttpRejected (ErrorMessage m)
     /\ m <> []
     /\ (forall t, res_text res = Some t -> t <> [] -> m = t)
     /\ (res_text res = None \/ res_text res = Some [] ->
         m = str "HTTP " ++ JS.String_ (JS.VNumber (res_status res))))
  /\ (res_ok res = true -> res_status res = 204%Z ->
      http (Responded res) = HttpResolved None).
Proof.
  split.
  - intros Hok. unfold http. rewrite Hok; simpl.
    destruct (res_text res) as [[|c t]|] eqn:E.
    + eexists; split; [reflexivity|]. split; [discriminate|].
      split; [intros t [= <-] H; now elim H | reflexivity].
    + eexists; split; [reflexivity|]. split; [discriminate|].
      split; [now intros t' [= <-] | intros [H|H]; discriminate].
    + eexists; split; [reflexivity|]. split; [discriminate|].
      split; [discriminate | reflexivity].
  - intros Hok Hs. unfold http. now rewrite Hok, Hs.
Qed.

Lemma http_turns_error_statuses_into_errors_witness :
  http (Responded (plain_response 500 (str "")))
  = HttpRejected (ErrorMessage (str "HTTP 500"))
  /\ http (Responded (plain_response 404 (str "no such note")))
     = HttpRejected (ErrorMessage (str "no such note"))
  /\ http (Responded (plain_response 204 (str ""))) = HttpResolved None.
Proof.
  destruct (http_turns_error_statuses_into_errors RawNote
              (plain_response 500 (str ""))) as [H500 _].
  destruct (http_turns_error_statuses_into_errors RawNote
              (plain_response 204 (str ""))) as [_ H204].
  destruct (H500 eq_refl) as (m & Hm & _ & _ & Hstatus).
  split; [|split].
  - rewrite Hm, (Hstatus (or_intror eq_refl)). reflexivity.
  - reflexivity.
  - exact (H204 eq_refl eq_refl).
Defined.

(** X23: a call that ends with no response, with a response that is not
    [ok], or with an [ok] response whose body is not JSON (other than a
    204) is a rejected call for the handler that made it: the callback that
    runs is the rollback of C1, C3 and C4, whatever the status.  An [ok]
    204 runs the success callback with no body. *)
Theorem failed_calls_run_the_rollback (f : FetchResult RawNote)
        (p : Pending) (now_arg now_upd : jsstring) (w : App) :
  (f = FetchFailed
   \/ (exists res, f = Responded res /\ res_ok res = false)
   \/ (exists res, f = Responded res /\ res_ok res = true
                   /\ res_status res <> 204%Z /\ res_json res = None) ->
   settle p (outcome_of (http f)) now_arg now_upd w
   = settle p Rejected now_arg now_upd w)
  /\ (forall res, f = Responded res -> res_ok res = true ->
                  res_status res = 204%Z ->
                  settle p (outcome_of (http f)) now_arg now_upd w
                  = settle p (Fulfilled None) now_arg now_upd w).
Proof.
  split.
  - intros [-> | [(res & -> & Hok) | (res & -> & Hok & Hs & Hj)]];
      unfold http.
    + reflexivity.
    + now rewrite Hok.
    + rewrite Hok, Hj; simpl.
      destruct (Z.eqb_spec (res_status res) 204); [contradiction|reflexivity].
  - intros res -> Hok Hs. unfold http. now rewrite Hok, Hs.
Qed.

Lemma failed_calls_run_the_rollback_witness :
  notes (settle (PendingCreate (create_item env1 (mkPartial None None)))
           (outcome_of (http (Responded (plain_response 503 (str "")))))
           t2 t2 (fst (newNote true env1 app0)))
  = [note_a; note_b].
Proof.
  destruct (failed_calls_run_the_rollback
              (Responded (plain_response 503 (str "")))
              (PendingCreate (create_item env1 (mkPartial None None)))
              t2 t2 (fst (newNote true env1 app0))) as [Hfail _].
  rewrite Hfail; [reflexivity|].
  right; left. eexists; split; reflexivity.
Defined.

(** ** The effects of [App] *)

Lemma draft_syncDraft w :
  draft (syncDraft w)
  = match selectedId w with
    | Some s => find_by_id s (notes w)
    | None => None
    end.
Proof. reflexivity. Qed.



(** X25: the effect that selects the first note acts on its first run
    only: it selects the head of the store if the store holds a note then,
    selects nothing if the store is empty then, and in either case every
    later run leaves the state as it is, also when the store has been filled
    in between. *)
Theorem first_note_selected_on_first_run_only (mounted : bool)
        (w later : App) :
  fst (selectFirst mounted w) = true
  /\ snd (selectFirst (fst (selectFirst mounted w)) later) = later
  /\ (notes w = [] -> snd (selectFirst mounted w) = w)
  /\ (forall n l, mounted = false -> notes w = n :: l ->
                  selectedId (snd (selectFirst mounted w)) = Some (id n)
                  /\ notes (snd (selectFirst mounted w)) = notes w).
Proof.
  split; [now destruct mounted|].
  split; [now destruct mounted|].
  split.
  - intros H. unfold selectFirst. destruct mounted; [reflexivity|].
    now rewrite H.
  - intros n l -> H. unfold selectFirst. rewrite H. now split.
Qed.

Lemma first_note_selected_on_first_run_only_witness :
  snd (selectFirst false (mkApp [] None None [] false None []))
  = mkApp [] None None [] false None []
  /\ selectedId
       (snd (selectFirst
               (fst (selectFirst false (mkApp [] None None [] false None [])))
               (mkApp (seed env1 env2 []) None None [] false None [])))
     = None
  /\ selectedId (snd (selectFirst false app_gone)) = Some (str "b").
Proof.
  destruct (first_note_selected_on_first_run_only false
              (mkApp [] None None [] false None [])
              (mkApp (seed env1 env2 []) None None [] false None []))
    as (_ & Hlater & Hempty & _).
  destruct (first_note_selected_on_first_run_only false app_gone app_gone)
    as (_ & _ & _ & Hhead).
  split; [exact (Hempty eq_refl)|]. split.
  - rewrite Hlater. reflexivity.
  - exact (proj1 (Hhead note_b [] eq_refl eq_refl)).
Defined.

(** X26: the theme button always lands on "light" or "dark", whatever the
    theme was; from either of the two, pressing it twice gives the theme
    back. *)
Theorem theme_toggles_between_light_and_dark (t : jsstring) :
  (toggleTheme t = str "light" \/ toggleTheme t = str "dark")
  /\ (t = str "light" \/ t = str "dark" -> toggleTheme (toggleTheme t) = t)
  /\ toggleTheme t <> t.
Proof.
  unfold toggleTheme. destruct (eqb_spec t (str "light")) as [->|H].
  - split; [now right|]. split; [reflexivity | discriminate].
  - split; [now left|]. split.
    + intros [->| ->]; [now elim H | reflexivity].
    + congruence.
Qed.

Lemma theme_toggles_between_light_and_dark_witness :
  toggleTheme (toggleTheme (str "dark")) = str "dark".
Proof.
  destruct (theme_toggles_between_light_and_dark (str "dark"))
    as (_ & H & _).
  apply H. now right.
Defined.

(** ** The create protocol: the selection follows the rebinding *)

(** X27: when a create under a fresh local identifier is answered with a
    different identifier, the note at the head of the store is the created
    one under the server's identifier, still titled "Untitled" with empty
    content; the rest of the store is as before the create; the selection
    is the server's identifier, so the editor holds that note after the sync
    effect; and success is reported. *)
Theorem rebinding_keeps_the_note_selected (e : Env) (w : App)
        (sv : RawNote) (now_arg now_upd : jsstring) :
  ~ In (uid e) (ids (notes w)) ->
  JS.truthy (raw_id sv) = true ->
  JS.String_ (raw_id sv) <> uid e ->
  exists created w1,
    newNote true e w = (w1, Some (PendingCreate created))
    /\ let w2 :=
         settle (PendingCreate created) (Fulfilled (Some sv))
                now_arg now_upd w1 in
       let renamed :=
         mkNote (JS.String_ (raw_id sv)) (str "Untitled") (str "")
                (JS.VString now_upd) in
       notes w2 = renamed :: notes w
       /\ selectedId w2 = Some (JS.String_ (raw_id sv))
       /\ draft (syncDraft w2) = Some renamed
       /\ toast w2 = Some (mkToast (str "Note created") (str "success")).
Proof.
  intros Hfresh Ht Hd.
  destruct (create_then_rebind_notes e w sv now_arg now_upd Hfresh Ht Hd)
    as (created & w1 & Hrun & Hid & Hw1 & Hnotes).
  exists created, w1. split; [exact Hrun|]. cbv zeta.
  assert (Hcreated : created
                     = mkNote (uid e) (str "Untitled") (str "")
                              (JS.VString (nowISO e))).
  { pose proof Hrun as Hc. unfold newNote in Hc. simpl in Hc.
    injection Hc as _ Hc. now rewrite <- Hc. }
  remember (settle (PendingCreate created) (Fulfilled (Some sv))
                   now_arg now_upd w1) as w2 eqn:Ew2.
  assert (Hsel : selectedId w2 = Some (JS.String_ (raw_id sv))).
  { rewrite Ew2. simpl settle. unfold newNote_then.
    rewrite Ht, strict_neq_string_String by (now rewrite Hid).
    reflexivity. }
  assert (Hn : notes w2
               = mkNote (JS.String_ (raw_id sv)) (str "Untitled") (str "")
                        (JS.VString now_upd) :: notes w).
  { rewrite Ew2. simpl settle. rewrite Hnotes, Hcreated. reflexivity. }
  split; [exact Hn|]. split; [exact Hsel|]. split.
  - rewrite draft_syncDraft, Hsel, Hn. simpl. now rewrite eqb_refl.
  - rewrite Ew2. simpl settle. unfold newNote_then.
    destruct (JS.truthy (raw_id sv)
              && JS.strict_neq_string (raw_id sv) (id created));
      reflexivity.
Qed.

Lemma rebinding_keeps_the_note_selected_witness :
  exists created w1,
    newNote true env1 app0 = (w1, Some (PendingCreate created))
    /\ notes (settle (PendingCreate created) (Fulfilled (Some saved_1))
                t2 t2 w1)
       = mkNote (str "srv-1") (str "Untitled") (str "") (JS.VString t2)
         :: [note_a; note_b]
    /\ selectedId (settle (PendingCreate created) (Fulfilled (Some saved_1))
                     t2 t2 w1)
       = Some (str "srv-1").
Proof.
  destruct (rebinding_keeps_the_note_selected env1 app0 saved_1 t2 t2)
    as (created & w1 & Hrun & Hn & Hs & _).
  - vm_compute; intuition discriminate.
  - reflexivity.
  - vm_compute; discriminate.
  - exists created, w1. split; [exact Hrun|]. split; [exact Hn | exact Hs].
Defined.
